(** * Repository and Data Mapper examples (ross2p/patterns)

    A shallow embedding of
      - the Repository example ([InMemoryUserRepository], [UserService]), and
      - the Data Mapper example ([UserMapper], [PayloadMapper]),
    followed by the properties of the collection store and of the converter.

    Every [async] method of the repository is embedded as one atomic step
    on the store: its body contains no [await], so it runs to completion
    once it is entered, and a rejected promise is an abrupt completion
    ([Throw]).  [registerUser] awaits [findByEmail] before it calls
    [create]; calls are taken one after the other, so no other call runs
    in between. *)

From Stdlib Require Import ZArith Lia.
From stdpp Require Import base list strings pretty gmap.

Local Open Scope string_scope.
Local Open Scope list_scope.
Local Open Scope Z_scope.

(** ** Language primitives used by the two examples *)

Module Js.

(** [new Error(message)]. *)
Record Error := mkError { message : string }.

(** Result of running a method body: a returned value or a thrown error. *)
Inductive Completion (A : Type) : Type :=
| Normal (a : A)
| Throw (e : Error).
Global Arguments Normal {A} a.
Global Arguments Throw {A} e.

Definition is_Throw {A} (c : Completion A) : bool :=
  match c with Throw _ => true | Normal _ => false end.

(** A [Date] holds a time value: milliseconds since the epoch, or NaN
    ("Invalid Date"). *)
Inductive Date := TimeValue (ms : Z) | InvalidDate.

(** [new Date(s)] for a string [s], given the platform's [Date.parse]
    ([None] stands for NaN). *)
Definition Date_of_string (parse : string -> option Z) (s : string) : Date :=
  match parse s with
  | Some ms => TimeValue ms
  | None => InvalidDate
  end.

(** The values a property of an object holds in these programs: the
    primitives (numbers that are integers) and dates. *)
Inductive Value :=
| VUndefined
| VNull
| VBoolean (b : bool)
| VNumber (n : Z)
| VString (s : string)
| VDate (d : Date).

(** An object is its own properties, by name.  A property that is present
    with the value [undefined] is an entry; a property that is absent is
    none.  The order in which the properties are enumerated is not kept:
    no code of the program looks at it. *)
Abbreviation Object := (gmap string Value).

(** [o.k]: the value of the property, [undefined] when there is none. *)
Definition get (o : Object) (k : string) : Value :=
  default VUndefined (o !! k).

(** [{...a, ...b}]: a new object with the own properties of [a], then
    those of [b], the later winning. *)
Definition spread (a b : Object) : Object := b ∪ a.

(** [v === s] for a string [s]: [v] is that string. *)
Definition strict_equals_string (v : Value) (s : string) : bool :=
  match v with
  | VString s' => String.eqb s' s
  | _ => false
  end.

Global Instance Date_eq_dec : EqDecision Date.
Proof. solve_decision. Defined.

Global Instance Value_eq_dec : EqDecision Value.
Proof. solve_decision. Defined.

(** Numbers are IEEE doubles.  The counter of the store only takes integer
    values; every integer of magnitude at most [2^53] is a double, and
    [2^53 + 1] is not: it lies half way between [2^53] and [2^53 + 2] and
    rounds to the even one, [2^53].  [Number_succ n] is [n + 1] in double
    arithmetic for integers [-2^53 <= n <= 2^53]. *)
Definition MAX_EXACT : Z := 2 ^ 53.

Definition Number_succ (n : Z) : Z :=
  if n <? MAX_EXACT then n + 1 else n.

(** [String(n)] for an integer-valued number below [10^21]: its decimal
    digits. *)
Definition Number_toString (n : Z) : string := pretty n.

(** [Map<string, V>]: entries in insertion order, at most one per key. *)
Definition JsMap (V : Type) : Type := list (string * V).

Section JsMap.
Context {V : Type}.

Definition Map_new : JsMap V := [].

Fixpoint Map_get (k : string) (m : JsMap V) : option V :=
  match m with
  | [] => None
  | (k', v) :: m' => if String.eqb k' k then Some v else Map_get k m'
  end.

Definition Map_has (k : string) (m : JsMap V) : bool :=
  match Map_get k m with Some _ => true | None => false end.

(** [set] on a key that is present keeps the entry's position and
    replaces its value; a new key is appended. *)
Fixpoint Map_set (k : string) (v : V) (m : JsMap V) : JsMap V :=
  match m with
  | [] => [(k, v)]
  | (k', v') :: m' =>
      if String.eqb k' k then (k', v) :: m' else (k', v') :: Map_set k v m'
  end.

Fixpoint Map_delete (k : string) (m : JsMap V) : JsMap V :=
  match m with
  | [] => []
  | (k', v') :: m' =>
      if String.eqb k' k then m' else (k', v') :: Map_delete k m'
  end.

Definition Map_keys (m : JsMap V) : list string := m.*1.
Definition Map_values (m : JsMap V) : list V := m.*2.

(** The representation invariant of a [Map]: keys are unique. *)
Definition Map_wf (m : JsMap V) : Prop := NoDup (Map_keys m).
End JsMap.

(** [Array.prototype.map] with a callback that may throw: the elements
    are converted from left to right, and the first error ends the call. *)
Fixpoint Array_map {A B : Type} (f : A -> Completion B) (l : list A)
    : Completion (list B) :=
  match l with
  | [] => Normal []
  | x :: l' =>
      match f x with
      | Throw e => Throw e
      | Normal y =>
          match Array_map f l' with
          | Throw e => Throw e
          | Normal ys => Normal (y :: ys)
          end
      end
  end.

(** Whether the character [c] occurs in [s]. *)
Fixpoint includes_char (c : Ascii.ascii) (s : string) : bool :=
  match s with
  | EmptyString => false
  | String a s' => Ascii.eqb a c || includes_char c s'
  end.

End Js.

(** ** Repository example *)

Module Repository.
Import Js.

(** A [User] is an object.  The interface declares four properties, and
    [create] builds objects with exactly these; what [update] stores is
    whatever the spread of its patch yields. *)
Abbreviation User := Object (only parsing).

Definition id (user : User) : Value := get user "id".
Definition name (user : User) : Value := get user "name".
Definition email (user : User) : Value := get user "email".
Definition createdAt (user : User) : Value := get user "createdAt".

(** The object literal [{ id, name, email, createdAt }]. *)
Definition mkUser (id' name' email' : string) (createdAt' : Date) : User :=
  {[ "id" := VString id';
     "name" := VString name';
     "email" := VString email';
     "createdAt" := VDate createdAt' ]}.

Module CreateUserDto.
Record t := mk { name : string; email : string }.
End CreateUserDto.

(** The patch of [update] is read by a spread, which copies every own
    property of the object it is given.  The declared type constrains two
    of them: [name] and [email], when present, are a string or
    [undefined].  An object with further properties ([id], [createdAt],
    others) is assignable to it, so these are not constrained. *)
Module UpdateUserDto.
Abbreviation t := Object (only parsing).

Definition optional_string (p : option Value) : bool :=
  match p with
  | None | Some VUndefined | Some (VString _) => true
  | Some _ => false
  end.

Definition well_typed (data : t) : bool :=
  optional_string (data !! "name") && optional_string (data !! "email").
End UpdateUserDto.

(** The state the methods run in: the two private fields of the
    [InMemoryUserRepository] instance, and the arrays allocated so far by
    [Array.from] (an array's address is its index in [arrays]).  [User]
    objects are built by [create] and by the spread in [update] and no
    statement of the program assigns to a property of one, so they are
    embedded as values. *)
Record State := mkState {
  users : JsMap User;
  nextId : Z;
  arrays : list (list User);
}.

Abbreviation ArrayRef := nat (only parsing).

(** [new InMemoryUserRepository()] *)
Definition new_InMemoryUserRepository : State :=
  {| users := Map_new; nextId := 1; arrays := [] |}.

(** State and exception monad of the method bodies. *)
Definition M (A : Type) : Type := State -> Completion A * State.

Definition ret {A} (a : A) : M A := fun s => (Normal a, s).
Definition throw {A} (msg : string) : M A := fun s => (Throw (mkError msg), s).
Definition bind {A B} (m : M A) (f : A -> M B) : M B :=
  fun s =>
    match m s with
    | (Normal a, s') => f a s'
    | (Throw e, s') => (Throw e, s')
    end.

(** The program throws plain [Error]s; the two kinds are told apart by
    their messages. *)
Definition NotFoundError (id' : string) : Error :=
  mkError ("User with id " +:+ id' +:+ " not found").

Definition DuplicateError (email' : string) : Error :=
  mkError ("User with email " +:+ email' +:+ " already exists").

Declare Scope js_scope.
Delimit Scope js_scope with js.
Notation "'let!' x := m 'in' k" := (bind m (fun x => k))
  (at level 10, x name, m at level 100, k at level 200) : js_scope.

(** [create]; [now] is the clock reading taken by [new Date()]. *)
Definition create (data : CreateUserDto.t) (now : Z) : M User :=
  fun s =>
    let user :=
      mkUser (Number_toString (nextId s)) (CreateUserDto.name data)
        (CreateUserDto.email data) (TimeValue now) in
    (Normal user,
     {| users := Map_set (Number_toString (nextId s)) user (users s);
        nextId := Number_succ (nextId s);
        arrays := arrays s |}).

Definition findById (id' : string) : M (option User) :=
  fun s => (Normal (Map_get id' (users s)), s).

(** The [for ... of] loop of [findByEmail] over [this.users.values()]. *)
Fixpoint findByEmail_loop (email' : string) (values : list User) : option User :=
  match values with
  | [] => None
  | user :: rest =>
      if strict_equals_string (email user) email' then Some user
      else findByEmail_loop email' rest
  end.

Definition findByEmail (email' : string) : M (option User) :=
  fun s => (Normal (findByEmail_loop email' (Map_values (users s))), s).

(** [Array.from(this.users.values())] allocates a new array. *)
Definition findAll : M ArrayRef :=
  fun s =>
    (Normal (length (arrays s)),
     {| users := users s;
        nextId := nextId s;
        arrays := arrays s ++ [Map_values (users s)] |}).

Definition update (id' : string) (data : UpdateUserDto.t) : M User :=
  fun s =>
    match Map_get id' (users s) with
    | None => throw ("User with id " +:+ id' +:+ " not found") s
    | Some user =>
        let updated := spread user data in
        (Normal updated,
         {| users := Map_set id' updated (users s);
            nextId := nextId s;
            arrays := arrays s |})
    end.

Definition delete (id' : string) : M unit :=
  fun s =>
    if negb (Map_has id' (users s))
    then throw ("User with id " +:+ id' +:+ " not found") s
    else (Normal tt,
          {| users := Map_delete id' (users s);
             nextId := nextId s;
             arrays := arrays s |}).

(** The [UserRepository] interface. *)
Record UserRepository := mkUserRepository {
  repo_create : CreateUserDto.t -> Z -> M User;
  repo_findById : string -> M (option User);
  repo_findByEmail : string -> M (option User);
  repo_findAll : M ArrayRef;
  repo_update : string -> UpdateUserDto.t -> M User;
  repo_delete : string -> M unit;
}.

Definition InMemoryUserRepository : UserRepository :=
  {| repo_create := create;
     repo_findById := findById;
     repo_findByEmail := findByEmail;
     repo_findAll := findAll;
     repo_update := update;
     repo_delete := delete |}.

(** [UserService], over the repository passed to its constructor. *)
Section UserService.
Variable userRepository : UserRepository.
Local Open Scope js_scope.

Definition registerUser (name' email' : string) (now : Z) : M User :=
  let! existing := repo_findByEmail userRepository email' in
  match existing with
  | Some _ => throw ("User with email " +:+ email' +:+ " already exists")
  | None =>
      repo_create userRepository
        {| CreateUserDto.name := name'; CreateUserDto.email := email' |} now
  end.

Definition getUserProfile (id' : string) : M (option User) :=
  repo_findById userRepository id'.

Definition updateUserName (id' name' : string) : M User :=
  repo_update userRepository id' {[ "name" := VString name' ]}.

Definition removeUser (id' : string) : M unit :=
  repo_delete userRepository id'.
End UserService.

(** The contents of the array at address [a]. *)
Definition read_array (s : State) (a : ArrayRef) : option (list User) :=
  arrays s !! a.

(** *** Sequences of calls on one repository instance *)

Inductive Call :=
| CallCreate (data : CreateUserDto.t) (now : Z)
| CallFindById (id' : string)
| CallFindByEmail (email' : string)
| CallFindAll
| CallUpdate (id' : string) (data : UpdateUserDto.t)
| CallDelete (id' : string).

(** The state a call leaves behind, whether it returns or throws (the
    client catches the error and goes on). *)
Definition step (c : Call) (s : State) : State :=
  match c with
  | CallCreate data now => (create data now s).2
  | CallFindById i => (findById i s).2
  | CallFindByEmail e => (findByEmail e s).2
  | CallFindAll => (findAll s).2
  | CallUpdate i data => (update i data s).2
  | CallDelete i => (delete i s).2
  end.

Definition run (cs : list Call) (s : State) : State :=
  foldl (fun s c => step c s) s cs.

(** The values returned by the [create] calls of a sequence, in call
    order. *)
Fixpoint created (cs : list Call) (s : State) : list User :=
  match cs with
  | [] => []
  | c :: cs' =>
      match c with
      | CallCreate data now =>
          match (create data now s).1 with
          | Normal user => user :: created cs' (step c s)
          | Throw _ => created cs' (step c s)
          end
      | _ => created cs' (step c s)
      end
  end.

(** Calls that only read the store. *)
Definition is_query (c : Call) : bool :=
  match c with
  | CallFindById _ | CallFindByEmail _ | CallFindAll => true
  | CallCreate _ _ | CallUpdate _ _ | CallDelete _ => false
  end.

Definition is_create (c : Call) : bool :=
  match c with CallCreate _ _ => true | _ => false end.

Fixpoint count_creates (cs : list Call) : nat :=
  match cs with
  | [] => 0%nat
  | c :: cs' => ((if is_create c then 1 else 0) + count_creates cs')%nat
  end.

(** Invariant of the store while the counter is exact: the counter is
    positive and every key was issued by an earlier [create], that is, it
    is the string of a number below the counter. *)
Definition keys_issued (s : State) : Prop :=
  1 <= nextId s
  /\ Forall (fun k => exists n : Z, 1 <= n < nextId s /\ k = Number_toString n)
       (Map_keys (users s)).

(** *** Sequences of calls on one [UserService] *)

Inductive ServiceCall :=
| CallRegisterUser (name' email' : string) (now : Z)
| CallGetUserProfile (id' : string)
| CallUpdateUserName (id' name' : string)
| CallRemoveUser (id' : string).

(** The state a call of the service on the in-memory repository leaves
    behind, whether it returns or throws. *)
Definition service_step (c : ServiceCall) (s : State) : State :=
  match c with
  | CallRegisterUser n e now =>
      (registerUser InMemoryUserRepository n e now s).2
  | CallGetUserProfile i => (getUserProfile InMemoryUserRepository i s).2
  | CallUpdateUserName i n => (updateUserName InMemoryUserRepository i n s).2
  | CallRemoveUser i => (removeUser InMemoryUserRepository i s).2
  end.

Definition service_run (cs : list ServiceCall) (s : State) : State :=
  foldl (fun s c => service_step c s) s cs.

(** Every user is filed under its own identifier. *)
Definition ids_are_keys (s : State) : Prop :=
  Forall (fun entry : string * User => id entry.2 = VString entry.1) (users s).

(** A call whose patch, if it has one, carries no [id] property. *)
Definition keeps_id (c : Call) : Prop :=
  match c with
  | CallUpdate _ data => data !! "id" = None
  | _ => True
  end.

(** No two stored users have the same email. *)
Definition emails_unique (s : State) : Prop :=
  NoDup (email <$> Map_values (users s)).

(** *** The data of [main] *)

Definition alice_dto : CreateUserDto.t :=
  {| CreateUserDto.name := "Alice"; CreateUserDto.email := "alice@example.com" |}.

Definition bob_dto : CreateUserDto.t :=
  {| CreateUserDto.name := "Bob"; CreateUserDto.email := "bob@example.com" |}.

Definition alice_user : User :=
  mkUser "1" "Alice" "alice@example.com" (TimeValue 1000).

Definition bob_user : User :=
  mkUser "2" "Bob" "bob@example.com" (TimeValue 2000).

(** The store after Alice and Bob were created, at clock readings 1000
    and 2000. *)
Definition two_users : State :=
  run [CallCreate alice_dto 1000; CallCreate bob_dto 2000]
    new_InMemoryUserRepository.

(** The patch of [updateUserName]. *)
Definition name_patch : UpdateUserDto.t :=
  {[ "name" := VString "Alice Smith" ]}.

(** A patch held in a variable, [{ name: "X", id: "7" }]: it is assignable
    to [UpdateUserDto], whose excess properties are only rejected on object
    literals. *)
Definition patch_with_id : UpdateUserDto.t :=
  {[ "name" := VString "X"; "id" := VString "7" ]}.

(** The literal [{ name: undefined }]. *)
Definition patch_undefined_name : UpdateUserDto.t :=
  {[ "name" := VUndefined ]}.

End Repository.

(** ** Data Mapper example *)

Module Mapper.
Import Js.

Module UserEntity.
Record t := mk {
  id : string;
  name : string;
  email : string;
  createdAt : Date;
}.

Definition getDisplayName (this : t) : string :=
  name this +:+ " <" +:+ email this +:+ ">".
End UserEntity.

Module UserResponseDto.
Record t := mk {
  id : string;
  name : string;
  email : string;
  memberSince : string;
}.
End UserResponseDto.

Module UserPayload.
Record t := mk { userId : string; email : string }.
End UserPayload.

Module UserRow.
Record t := mk {
  user_id : string;
  user_name : string;
  user_email : string;
  created_at : string;
}.
End UserRow.

(** The [Mapper] interface. *)
Record MapperI (TRaw TEntity TDto : Type) := mkMapper {
  mapper_toEntity : TRaw -> Completion TEntity;
  mapper_toDto : TEntity -> Completion TDto;
}.

Section UserMapper.
(** Two built-ins of the platform are parameters: [Date.parse] ([None]
    is NaN) and [Date.prototype.toLocaleDateString] with the arguments
    the program passes ("en-US", long month), which yields a string for
    every date, "Invalid Date" included. *)
Variable Date_parse : string -> option Z.
Variable toLocaleDateString : Date -> string.

Definition toEntity (row : UserRow.t) : Completion UserEntity.t :=
  Normal
    {| UserEntity.id := UserRow.user_id row;
       UserEntity.name := UserRow.user_name row;
       UserEntity.email := UserRow.user_email row;
       UserEntity.createdAt :=
         Date_of_string Date_parse (UserRow.created_at row) |}.

Definition toDto (entity : UserEntity.t) : Completion UserResponseDto.t :=
  Normal
    {| UserResponseDto.id := UserEntity.id entity;
       UserResponseDto.name := UserEntity.name entity;
       UserResponseDto.email := UserEntity.email entity;
       UserResponseDto.memberSince :=
         toLocaleDateString (UserEntity.createdAt entity) |}.

Definition UserMapper : MapperI UserRow.t UserEntity.t UserResponseDto.t :=
  {| mapper_toEntity := toEntity; mapper_toDto := toDto |}.

Definition userEntityToPayload (entity : UserEntity.t) : Completion UserPayload.t :=
  Normal
    {| UserPayload.userId := UserEntity.id entity;
       UserPayload.email := UserEntity.email entity |}.

(** [userMapper.toDto(userMapper.toEntity(row))]: the argument is
    evaluated first, and an error thrown by it propagates. *)
Definition toDto_of_toEntity (row : UserRow.t) : Completion UserResponseDto.t :=
  match toEntity row with
  | Normal entity => toDto entity
  | Throw e => Throw e
  end.
End UserMapper.

(** [rows.map((row) => userMapper.toDto(userMapper.toEntity(row)))] *)
Definition map_rows (Date_parse : string -> option Z)
    (toLocaleDateString : Date -> string) (rows : list UserRow.t)
    : Completion (list UserResponseDto.t) :=
  Array_map (toDto_of_toEntity Date_parse toLocaleDateString) rows.

(** A [Date.parse] for the closed examples: the UTC date-time strings
    [YYYY-MM-DDTHH:mm:ssZ] and [YYYY-MM-DDTHH:mm:ss.s...Z], read as Node's
    engine reads them (a day up to 31 in any month and the hour 24:00:00
    roll over; of the fraction the first three digits count).  Strings of
    other shapes are outside it; it answers NaN on them. *)

Definition digit (a : Ascii.ascii) : option Z :=
  let n := Z.of_N (Ascii.N_of_ascii a) in
  if (48 <=? n) && (n <=? 57) then Some (n - 48) else None.

Definition digits2 (a b : Ascii.ascii) : option Z :=
  match digit a, digit b with
  | Some x, Some y => Some (10 * x + y)
  | _, _ => None
  end.

Definition digits4 (a b c d : Ascii.ascii) : option Z :=
  match digits2 a b, digits2 c d with
  | Some x, Some y => Some (100 * x + y)
  | _, _ => None
  end.

(** Days from 1970-01-01 to the given civil date. *)
Definition days_from_civil (y m d : Z) : Z :=
  let y' := if m <=? 2 then y - 1 else y in
  let era := y' / 400 in
  let yoe := y' - era * 400 in
  let mp := (m + 9) mod 12 in
  let doy := (153 * mp + 2) / 5 + d - 1 in
  let doe := yoe * 365 + yoe / 4 - yoe / 100 + doy in
  era * 146097 + doe - 719468.

Definition is_char (c : string) (a : Ascii.ascii) : bool :=
  match c with
  | String b EmptyString => Ascii.eqb a b
  | _ => false
  end.

(** The digits of a fraction up to the closing "Z", in milliseconds. *)
Fixpoint fraction_digits (l : list Ascii.ascii) (weight : Z) : option Z :=
  match l with
  | [] => None
  | [z] => if is_char "Z" z then Some 0 else None
  | a :: l' =>
      match digit a, fraction_digits l' (weight / 10) with
      | Some x, Some r => Some (x * weight + r)
      | _, _ => None
      end
  end.

(** What follows the seconds: "Z", or "." and at least one digit, then "Z". *)
Definition milliseconds (rest : list Ascii.ascii) : option Z :=
  match rest with
  | [z] => if is_char "Z" z then Some 0 else None
  | dot :: a :: l' =>
      if is_char "." dot
      then match digit a with
           | Some _ => fraction_digits (a :: l') 100
           | None => None
           end
      else None
  | _ => None
  end.

Definition Date_parse_utc (s : string) : option Z :=
  match String.list_ascii_of_string s with
  | y1 :: y2 :: y3 :: y4 :: c1 :: m1 :: m2 :: c2 :: d1 :: d2 :: t
    :: h1 :: h2 :: c3 :: n1 :: n2 :: c4 :: s1 :: s2 :: rest =>
      if is_char "-" c1 && is_char "-" c2 && is_char "T" t
         && is_char ":" c3 && is_char ":" c4
      then
        match digits4 y1 y2 y3 y4, digits2 m1 m2, digits2 d1 d2,
              digits2 h1 h2, digits2 n1 n2, digits2 s1 s2,
              milliseconds rest with
        | Some y, Some m, Some d, Some h, Some n, Some sec, Some ms =>
            if (1 <=? m) && (m <=? 12) && (1 <=? d) && (d <=? 31)
               && (((h <=? 23) && (n <=? 59) && (sec <=? 59))
                   || ((h =? 24) && (n =? 0) && (sec =? 0) && (ms =? 0)))
            then Some (((days_from_civil y m d * 24 + h) * 60 + n) * 60000
                       + sec * 1000 + ms)
            else None
        | _, _, _, _, _, _, _ => None
        end
      else None
  | _ => None
  end.

(** The row of [main], and a row whose timestamp is no date. *)
Definition dbRow : UserRow.t :=
  {| UserRow.user_id := "usr_42";
     UserRow.user_name := "Alice Johnson";
     UserRow.user_email := "alice@example.com";
     UserRow.created_at := "2024-06-15T10:30:00Z" |}.

Definition garbage_row : UserRow.t :=
  {| UserRow.user_id := "usr_42";
     UserRow.user_name := "Alice Johnson";
     UserRow.user_email := "alice@example.com";
     UserRow.created_at := "garbage" |}.

End Mapper.

Import Js Repository.

Example two_users_state :
  two_users =
    {| users := [("1", alice_user); ("2", bob_user)]; nextId := 3; arrays := [] |}.
Proof. reflexivity. Qed.

Example Date_parse_utc_dbRow :
  Mapper.Date_parse_utc "2024-06-15T10:30:00Z" = Some 1718447400000.
Proof. reflexivity. Qed.

Example Date_parse_utc_rolls_over :
  Mapper.Date_parse_utc "2024-02-30T00:00:00Z" = Some 1709251200000
  /\ Mapper.Date_parse_utc "2024-06-15T24:00:00Z" = Some 1718496000000
  /\ Mapper.Date_parse_utc "2024-06-15T10:30:00.000Z" = Some 1718447400000
  /\ Mapper.Date_parse_utc "2024-06-15T24:00:01Z" = None.
Proof. repeat split. Qed.

(** ** Facts about [Map] *)

Section JsMapFacts.
Context {V : Type}.
Implicit Types (m : JsMap V) (k : string) (v : V).

Lemma Map_get_None k m : Map_get k m = None <-> k ∉ Map_keys m.
Proof.
  unfold Map_keys. induction m as [|[k' v'] m IH]; simpl.
  - split; [intros _; apply not_elem_of_nil | done].
  - destruct (String.eqb_spec k' k) as [->|Hne].
    + split; [done | intros H; exfalso; apply H; left].
    + rewrite IH, not_elem_of_cons. intuition congruence.
Qed.

Lemma Map_get_Some_key k v m : Map_get k m = Some v -> k ∈ Map_keys m.
Proof.
  intros H. destruct (decide (k ∈ Map_keys m)) as [|Hn]; [done|].
  apply Map_get_None in Hn. congruence.
Qed.

Lemma Map_get_Some_value k v m : Map_get k m = Some v -> v ∈ Map_values m.
Proof.
  unfold Map_values. induction m as [|[k' v'] m IH]; simpl; [done|].
  destruct (String.eqb k' k).
  - intros [= ->]. left.
  - intros H. right. auto.
Qed.

Lemma Map_has_true k m : Map_has k m = true <-> k ∈ Map_keys m.
Proof.
  unfold Map_has. destruct (Map_get k m) eqn:E.
  - split; [intros _; eapply Map_get_Some_key; eauto | done].
  - apply Map_get_None in E. split; [done | intros; contradiction].
Qed.

Lemma Map_get_set_eq k v m : Map_get k (Map_set k v m) = Some v.
Proof.
  induction m as [|[k' v'] m IH]; simpl.
  - by rewrite String.eqb_refl.
  - destruct (String.eqb k' k) eqn:E; simpl; by rewrite E.
Qed.

Lemma Map_get_set_ne k k0 v m :
  k <> k0 -> Map_get k0 (Map_set k v m) = Map_get k0 m.
Proof.
  intros Hne. induction m as [|[k' v'] m IH]; simpl.
  - apply String.eqb_neq in Hne. by rewrite Hne.
  - destruct (String.eqb_spec k' k) as [->|Hk]; simpl.
    + apply String.eqb_neq in Hne. by rewrite Hne.
    + by rewrite IH.
Qed.

(** Setting a key that is present keeps every entry where it is. *)
Lemma Map_keys_set_present k v m :
  k ∈ Map_keys m -> Map_keys (Map_set k v m) = Map_keys m.
Proof.
  unfold Map_keys. induction m as [|[k' v'] m IH]; simpl.
  - intros H. by apply elem_of_nil in H.
  - destruct (String.eqb_spec k' k) as [->|Hk]; simpl; [done|].
    intros H. apply elem_of_cons in H as [->|H]; [done|].
    f_equal. by apply IH.
Qed.

(** Setting a new key appends the entry. *)
Lemma Map_set_fresh k v m : k ∉ Map_keys m -> Map_set k v m = m ++ [(k, v)].
Proof.
  unfold Map_keys. induction m as [|[k' v'] m IH]; simpl; [done|].
  intros H. apply not_elem_of_cons in H as [Hk H].
  destruct (String.eqb_spec k' k) as [->|_]; [done|].
  by rewrite IH.
Qed.

Lemma Map_wf_set k v m : Map_wf m -> Map_wf (Map_set k v m).
Proof.
  intros Hwf. destruct (decide (k ∈ Map_keys m)) as [Hin|Hout].
  - unfold Map_wf. by rewrite Map_keys_set_present.
  - rewrite Map_set_fresh by done. unfold Map_wf, Map_keys in *.
    rewrite fmap_app. simpl. apply NoDup_app. split; [done|].
    split; [|apply NoDup_singleton].
    intros x Hx Hx'. apply list_elem_of_singleton in Hx' as ->. done.
Qed.

Lemma Map_keys_delete_subset k k0 m :
  k0 ∈ Map_keys (Map_delete k m) -> k0 ∈ Map_keys m.
Proof.
  unfold Map_keys. induction m as [|[k' v'] m IH]; simpl; [done|].
  destruct (String.eqb k' k); simpl.
  - intros H. by right.
  - intros H. apply elem_of_cons in H as [->|H]; [left | right; auto].
Qed.

Lemma Map_wf_delete k m : Map_wf m -> Map_wf (Map_delete k m).
Proof.
  unfold Map_wf, Map_keys. induction m as [|[k' v'] m IH]; simpl; [done|].
  intros H. apply NoDup_cons in H as [Hk H].
  destruct (String.eqb k' k); simpl; [done|].
  apply NoDup_cons. split; [|auto].
  intros Hin. apply Hk. by apply (Map_keys_delete_subset k).
Qed.

Lemma Map_keys_delete_gone k m : Map_wf m -> k ∉ Map_keys (Map_delete k m).
Proof.
  unfold Map_wf, Map_keys. induction m as [|[k' v'] m IH]; simpl.
  - intros _. apply not_elem_of_nil.
  - intros H. apply NoDup_cons in H as [Hk H].
    destruct (String.eqb_spec k' k) as [->|Hne]; simpl; [done|].
    apply not_elem_of_cons. split; [done | auto].
Qed.

Lemma Map_get_delete_ne k k0 m :
  k <> k0 -> Map_get k0 (Map_delete k m) = Map_get k0 m.
Proof.
  intros Hne. induction m as [|[k' v'] m IH]; simpl; [done|].
  destruct (String.eqb_spec k' k) as [->|Hk]; simpl.
  - apply String.eqb_neq in Hne. by rewrite Hne.
  - by rewrite IH.
Qed.

Lemma Map_delete_length k m :
  k ∈ Map_keys m -> S (length (Map_delete k m)) = length m.
Proof.
  unfold Map_keys. induction m as [|[k' v'] m IH]; simpl.
  - intros H. by apply elem_of_nil in H.
  - destruct (String.eqb_spec k' k) as [->|Hk]; simpl; [done|].
    intros H. apply elem_of_cons in H as [->|H]; [done|].
    by rewrite IH.
Qed.

(** Deleting keeps the other entries in their order. *)
Lemma Map_delete_sublist k m : Map_delete k m `sublist_of` m.
Proof.
  induction m as [|[k' v'] m IH]; simpl; [done|].
  destruct (String.eqb k' k).
  - by apply sublist_cons.
  - by apply sublist_skip.
Qed.
End JsMapFacts.

(** ** Facts about objects *)

Lemma lookup_spread_Some (a b : Object) (k : string) (v : Value) :
  b !! k = Some v -> spread a b !! k = Some v.
Proof. intros H. unfold spread. by apply lookup_union_Some_l. Qed.

Lemma lookup_spread_None (a b : Object) (k : string) :
  b !! k = None -> spread a b !! k = a !! k.
Proof. intros H. unfold spread. by apply lookup_union_r. Qed.

Lemma get_spread (a b : Object) (k : string) :
  get (spread a b) k = match b !! k with Some v => v | None => get a k end.
Proof.
  unfold get. destruct (b !! k) as [v|] eqn:E.
  - by rewrite (lookup_spread_Some _ _ _ _ E).
  - by rewrite (lookup_spread_None _ _ _ E).
Qed.

Lemma spread_empty (a : Object) : spread a ∅ = a.
Proof. unfold spread. apply (left_id_L ∅ (∪)). Qed.

Lemma spread_idempotent (a b : Object) : spread (spread a b) b = spread a b.
Proof. unfold spread. by rewrite (assoc_L (∪)), (idemp_L (∪)). Qed.

Lemma spread_singleton (a : Object) (k : string) (v : Value) :
  spread a {[ k := v ]} = <[ k := v ]> a.
Proof. unfold spread. symmetry. apply insert_union_singleton_l. Qed.

Lemma mkUser_fields (id' name' email' : string) (createdAt' : Date) :
  id (mkUser id' name' email' createdAt') = VString id'
  /\ name (mkUser id' name' email' createdAt') = VString name'
  /\ email (mkUser id' name' email' createdAt') = VString email'
  /\ createdAt (mkUser id' name' email' createdAt') = VDate createdAt'.
Proof. by repeat split. Qed.

Lemma strict_equals_string_true (v : Value) (s : string) :
  strict_equals_string v s = true <-> v = VString s.
Proof.
  destruct v; simpl; try (split; [discriminate | done]).
  rewrite String.eqb_eq. split; [by intros -> | by intros [= ->]].
Qed.

(** ** The collection store: update, delete, lookup *)

Section Update.
Variables (s : State) (id' : string) (data : UpdateUserDto.t).

Lemma update_present (user : User) :
  Map_get id' (users s) = Some user ->
  update id' data s =
    (Normal (spread user data),
     {| users := Map_set id' (spread user data) (users s);
        nextId := nextId s;
        arrays := arrays s |}).
Proof. intros H. unfold update. by rewrite H. Qed.

Lemma update_absent :
  id' ∉ Map_keys (users s) ->
  update id' data s = (Throw (NotFoundError id'), s).
Proof. intros H. apply Map_get_None in H. unfold update. by rewrite H. Qed.
End Update.

(** C2, as the code has it: [update] on a present identifier returns the
    stored value with the properties of the patch written over it: every
    property the patch carries has the patch's value, a value [undefined]
    included, and every property it does not carry is that of the stored
    value.  The identifier and the creation timestamp are those of the
    stored value when the patch carries neither, as is the case of a patch
    made of the declared fields, name and email.  The returned value
    replaces the entry of the identifier, in place; every other entry, the
    counter and the arrays handed out earlier are untouched. *)
Theorem C2_update_overwrites_patch_fields
    (s : State) (id' : string) (data : UpdateUserDto.t) (user : User) :
  Map_get id' (users s) = Some user ->
  exists (updated : User) (s' : State),
    update id' data s = (Normal updated, s')
    /\ (forall k v, data !! k = Some v -> updated !! k = Some v)
    /\ (forall k, data !! k = None -> updated !! k = user !! k)
    /\ (data !! "id" = None -> id updated = id user)
    /\ (data !! "createdAt" = None -> createdAt updated = createdAt user)
    /\ name updated = default (name user) (data !! "name")
    /\ email updated = default (email user) (data !! "email")
    /\ Map_get id' (users s') = Some updated
    /\ (forall k, k <> id' -> Map_get k (users s') = Map_get k (users s))
    /\ Map_keys (users s') = Map_keys (users s)
    /\ nextId s' = nextId s
    /\ arrays s' = arrays s.
Proof.
  intros Hget. eexists _, _. split; [by apply update_present|].
  cbn [users nextId arrays]. unfold id, name, email, createdAt.
  split; [intros k v; apply lookup_spread_Some|].
  split; [intros k; apply lookup_spread_None|].
  split; [intros H; by rewrite get_spread, H|].
  split; [intros H; by rewrite get_spread, H|].
  split; [rewrite get_spread; by destruct (data !! "name")|].
  split; [rewrite get_spread; by destruct (data !! "email")|].
  split; [apply Map_get_set_eq|].
  split; [intros k Hk; by apply Map_get_set_ne|].
  split; [|done]. apply Map_keys_set_present. by eapply Map_get_Some_key.
Qed.

Lemma C2_update_overwrites_patch_fields_witness :
  Map_get "1" (users two_users) = Some alice_user
  /\ exists (updated : User) (s' : State),
    update "1" name_patch two_users = (Normal updated, s')
    /\ (forall k v, name_patch !! k = Some v -> updated !! k = Some v)
    /\ (forall k, name_patch !! k = None -> updated !! k = alice_user !! k)
    /\ (name_patch !! "id" = None -> id updated = id alice_user)
    /\ (name_patch !! "createdAt" = None ->
        createdAt updated = createdAt alice_user)
    /\ name updated = default (name alice_user) (name_patch !! "name")
    /\ email updated = default (email alice_user) (name_patch !! "email")
    /\ Map_get "1" (users s') = Some updated
    /\ (forall k, k <> "1" -> Map_get k (users s') = Map_get k (users two_users))
    /\ Map_keys (users s') = Map_keys (users two_users)
    /\ nextId s' = nextId two_users
    /\ arrays s' = arrays two_users.
Proof.
  split; [reflexivity|].
  apply (C2_update_overwrites_patch_fields two_users "1" name_patch alice_user).
  reflexivity.
Defined.

(** C2 as stated fails: a patch that carries an [id] property, which the
    type of [update] admits, changes the identifier of the stored value;
    the value is then filed under "1" with the identifier "7". *)
Lemma C2_patch_carrying_id_changes_identifier :
  UpdateUserDto.well_typed patch_with_id = true
  /\ Map_get "1" (users two_users) = Some alice_user
  /\ exists (updated : User) (s' : State),
       update "1" patch_with_id two_users = (Normal updated, s')
       /\ Map_get "1" (users s') = Some updated
       /\ id alice_user = VString "1"
       /\ id updated = VString "7"
       /\ id updated <> id alice_user.
Proof.
  split; [reflexivity|]. split; [reflexivity|].
  eexists _, _. split; [reflexivity|]. by repeat split.
Qed.

(** A property the patch carries with the value [undefined] is written
    over the stored one. *)
Example update_undefined_name :
  UpdateUserDto.well_typed patch_undefined_name = true
  /\ exists (updated : User) (s' : State),
       update "1" patch_undefined_name two_users = (Normal updated, s')
       /\ name updated = VUndefined
       /\ email updated = VString "alice@example.com".
Proof. split; [reflexivity|]. eexists _, _. by repeat split. Qed.

(** C4: [update] fails with the not-found error exactly when the identifier
    is absent from the store, and then leaves the store as it was; updating
    the identifier "999" of a new store is the spec's example. *)
Theorem C4_update_not_found_iff_absent
    (s : State) (id' : string) (data : UpdateUserDto.t) :
  (is_Throw (fst (update id' data s)) = true <-> id' ∉ Map_keys (users s))
  /\ (id' ∉ Map_keys (users s) ->
      update id' data s = (Throw (NotFoundError id'), s))
  /\ update "999" {[ "name" := VString "X" ]} new_InMemoryUserRepository
     = (Throw (mkError "User with id 999 not found"), new_InMemoryUserRepository).
Proof.
  split; [|split; [apply update_absent | reflexivity]].
  destruct (Map_get id' (users s)) as [user|] eqn:Hget.
  - rewrite (update_present _ _ _ _ Hget). simpl.
    split; [done|]. intros Habs. apply Map_get_None in Habs. congruence.
  - apply Map_get_None in Hget. rewrite update_absent by done. done.
Qed.

Lemma C4_update_not_found_iff_absent_witness :
  ("999" ∉ Map_keys (users two_users))
  /\ update "999" name_patch two_users = (Throw (NotFoundError "999"), two_users).
Proof.
  assert (H : "999" ∉ Map_keys (users two_users)).
  { apply Map_get_None. reflexivity. }
  split; [exact H|].
  exact (proj1 (proj2 (C4_update_not_found_iff_absent two_users "999" name_patch)) H).
Defined.

(** C10: after a successful [update], [findById] on the same identifier
    returns the value that [update] returned, and changes nothing. *)
Theorem C10_findById_returns_updated_value
    (s : State) (id' : string) (data : UpdateUserDto.t) (user : User) :
  Map_get id' (users s) = Some user ->
  exists (updated : User) (s' : State),
    update id' data s = (Normal updated, s')
    /\ findById id' s' = (Normal (Some updated), s').
Proof.
  intros Hget. eexists _, _. split; [by apply update_present|].
  unfold findById. simpl. by rewrite Map_get_set_eq.
Qed.

Lemma C10_findById_returns_updated_value_witness :
  Map_get "2" (users two_users) = Some bob_user
  /\ exists (updated : User) (s' : State),
    update "2" name_patch two_users = (Normal updated, s')
    /\ findById "2" s' = (Normal (Some updated), s').
Proof.
  split; [reflexivity|].
  apply (C10_findById_returns_updated_value two_users "2" name_patch bob_user).
  reflexivity.
Defined.

(** ** Delete *)

Lemma delete_absent (s : State) (id' : string) :
  id' ∉ Map_keys (users s) -> delete id' s = (Throw (NotFoundError id'), s).
Proof.
  intros H. unfold delete.
  destruct (Map_has id' (users s)) eqn:E; [|done].
  apply Map_has_true in E. contradiction.
Qed.

Lemma delete_present (s : State) (id' : string) :
  id' ∈ Map_keys (users s) ->
  delete id' s =
    (Normal (),
     {| users := Map_delete id' (users s);
        nextId := nextId s;
        arrays := arrays s |}).
Proof. intros H. apply Map_has_true in H. unfold delete. by rewrite H. Qed.

(** C5: [delete] fails with the not-found error exactly when the identifier
    is absent.  On a present identifier it removes the entry itself (the
    store has one entry less and the identifier is no longer a key), so
    [findById] then answers "not found"; the other entries stay. *)
Theorem C5_delete_removes_entry (s : State) (id' : string) :
  Map_wf (users s) ->
  (is_Throw (fst (delete id' s)) = true <-> id' ∉ Map_keys (users s))
  /\ (id' ∉ Map_keys (users s) ->
      delete id' s = (Throw (NotFoundError id'), s))
  /\ (id' ∈ Map_keys (users s) ->
      exists s' : State,
        delete id' s = (Normal (), s')
        /\ (id' ∉ Map_keys (users s'))
        /\ findById id' s' = (Normal None, s')
        /\ S (length (users s')) = length (users s)
        /\ (forall k, k <> id' -> Map_get k (users s') = Map_get k (users s))
        /\ nextId s' = nextId s
        /\ arrays s' = arrays s).
Proof.
  intros Hwf. split; [|split].
  - destruct (decide (id' ∈ Map_keys (users s))) as [Hin|Hout].
    + rewrite delete_present by done. simpl. split; [done | contradiction].
    + rewrite delete_absent by done. done.
  - apply delete_absent.
  - intros Hin. eexists. split; [by apply delete_present|]. simpl.
    pose proof (Map_keys_delete_gone id' (users s) Hwf) as Hgone.
    repeat split.
    + done.
    + unfold findById. simpl. f_equal. f_equal. by apply Map_get_None.
    + by apply Map_delete_length.
    + intros k Hk. by apply Map_get_delete_ne.
Qed.

Lemma two_users_wf : Map_wf (users two_users).
Proof. unfold Map_wf. compute_done. Qed.

Lemma C5_delete_removes_entry_witness :
  Map_wf (users two_users)
  /\ ("2" ∈ Map_keys (users two_users))
  /\ exists s' : State,
       delete "2" two_users = (Normal (), s')
       /\ ("2" ∉ Map_keys (users s'))
       /\ findById "2" s' = (Normal None, s')
       /\ S (length (users s')) = length (users two_users)
       /\ (forall k, k <> "2" -> Map_get k (users s') = Map_get k (users two_users))
       /\ nextId s' = nextId two_users
       /\ arrays s' = arrays two_users.
Proof.
  assert (Hin : "2" ∈ Map_keys (users two_users)).
  { apply Map_has_true. reflexivity. }
  split; [exact two_users_wf|]. split; [exact Hin|].
  exact (proj2 (proj2 (C5_delete_removes_entry two_users "2" two_users_wf)) Hin).
Defined.

(** ** Lookup by email and registration *)

Lemma findByEmail_loop_first (email' : string) (values : list User) :
  match findByEmail_loop email' values with
  | Some user =>
      exists before after,
        values = before ++ user :: after
        /\ email user = VString email'
        /\ Forall (fun v => email v <> VString email') before
  | None => Forall (fun v => email v <> VString email') values
  end.
Proof.
  induction values as [|v values IH]; simpl; [constructor|].
  destruct (strict_equals_string (email v) email') eqn:E.
  - apply strict_equals_string_true in E. exists [], values. by repeat split.
  - assert (Hne : email v <> VString email').
    { intros Heq. apply strict_equals_string_true in Heq. congruence. }
    destruct (findByEmail_loop email' values) as [user|].
    + destruct IH as (before & after & -> & He & Hb).
      exists (v :: before), after. repeat split; [done|]. by constructor.
    + by constructor.
Qed.

Lemma findByEmail_loop_None (email' : string) (values : list User) :
  findByEmail_loop email' values = None
  <-> ~ exists user, user ∈ values /\ email user = VString email'.
Proof.
  pose proof (findByEmail_loop_first email' values) as H.
  destruct (findByEmail_loop email' values) as [user|].
  - destruct H as (before & after & -> & He & _).
    split; [done|]. intros Hno. exfalso. apply Hno. exists user.
    split; [|done]. apply elem_of_app. right. left.
  - split; [|done]. intros _ (user & Hin & He).
    rewrite Forall_forall in H. by apply (H user).
Qed.

Lemma Map_set_value_in {V} (k : string) (v : V) (m : JsMap V) :
  v ∈ Map_values (Map_set k v m).
Proof. eapply Map_get_Some_value. apply Map_get_set_eq. Qed.

(** A value created under a key that is not in use goes last. *)
Lemma create_appends (data : CreateUserDto.t) (now : Z) (s : State) :
  Number_toString (nextId s) ∉ Map_keys (users s) ->
  Map_values (users (create data now s).2)
  = Map_values (users s) ++ [
      mkUser (Number_toString (nextId s)) (CreateUserDto.name data)
        (CreateUserDto.email data) (TimeValue now) ].
Proof.
  intros Hfresh. simpl. rewrite Map_set_fresh by done.
  unfold Map_values. by rewrite fmap_app.
Qed.

(** C6: [findByEmail] returns the first value, in the order of the store's
    entries, whose email is the one asked for ([before] holds the entries
    in front of it, none of which matches), and "not found" when no stored
    value matches; it leaves the store as it is.  The order of the entries
    is that of insertion: a value created under a new key goes last. *)
Theorem C6_findByEmail_first_in_insertion_order (s : State) (email' : string) :
  (exists found : option User,
    findByEmail email' s = (Normal found, s)
    /\ match found with
       | Some user =>
           exists before after,
             Map_values (users s) = before ++ user :: after
             /\ email user = VString email'
             /\ Forall (fun v => email v <> VString email') before
       | None => Forall (fun v => email v <> VString email') (Map_values (users s))
       end)
  /\ (forall data now,
       Number_toString (nextId s) ∉ Map_keys (users s) ->
       exists user,
         fst (create data now s) = Normal user
         /\ Map_values (users (create data now s).2)
            = Map_values (users s) ++ [user]).
Proof.
  split.
  - eexists. split; [reflexivity|]. apply findByEmail_loop_first.
  - intros data now Hfresh. eexists. split; [reflexivity|].
    by apply create_appends.
Qed.

Lemma C6_findByEmail_first_in_insertion_order_witness :
  (Number_toString (nextId two_users) ∉ Map_keys (users two_users))
  /\ exists user,
       fst (create bob_dto 3000 two_users) = Normal user
       /\ Map_values (users (create bob_dto 3000 two_users).2)
          = Map_values (users two_users) ++ [user].
Proof.
  assert (H : Number_toString (nextId two_users) ∉ Map_keys (users two_users)).
  { apply Map_get_None. reflexivity. }
  split; [exact H|].
  exact (proj2 (C6_findByEmail_first_in_insertion_order two_users "bob@example.com")
           bob_dto 3000 H).
Defined.

(** With two stored values of the same email the scan answers the one
    inserted first. *)
Example findByEmail_duplicate_emails :
  findByEmail "bob@example.com" (create bob_dto 3000 two_users).2
  = (Normal (Some bob_user), (create bob_dto 3000 two_users).2).
Proof. reflexivity. Qed.

Section Register.
Variables (s : State) (name' email' : string) (now : Z).

Lemma registerUser_duplicate :
  (exists user, user ∈ Map_values (users s) /\ email user = VString email') ->
  registerUser InMemoryUserRepository name' email' now s
  = (Throw (DuplicateError email'), s).
Proof.
  intros Hex. unfold registerUser, bind. simpl.
  destruct (findByEmail_loop email' (Map_values (users s))) eqn:E; [done|].
  apply findByEmail_loop_None in E. contradiction.
Qed.

Lemma registerUser_fresh :
  (~ exists user, user ∈ Map_values (users s) /\ email user = VString email') ->
  registerUser InMemoryUserRepository name' email' now s
  = create {| CreateUserDto.name := name'; CreateUserDto.email := email' |}
      now s.
Proof.
  intros Hno. apply findByEmail_loop_None in Hno.
  unfold registerUser, bind. simpl. by rewrite Hno.
Qed.
End Register.

(** C3: [registerUser] fails with the duplicate error exactly when a stored
    value already has the email, and then nothing is created and the store
    is as before; otherwise it is [create] on the name and email, whose
    result it returns.  After a registration that succeeded, registering
    the same email again fails with the duplicate error, whatever the
    name. *)
Theorem C3_registerUser_duplicate_iff_email_stored
    (s : State) (name' email' : string) (now : Z) :
  (is_Throw (fst (registerUser InMemoryUserRepository name' email' now s)) = true
   <-> exists user, user ∈ Map_values (users s) /\ email user = VString email')
  /\ ((exists user, user ∈ Map_values (users s) /\ email user = VString email') ->
      registerUser InMemoryUserRepository name' email' now s
      = (Throw (DuplicateError email'), s))
  /\ ((~ exists user, user ∈ Map_values (users s) /\ email user = VString email') ->
      registerUser InMemoryUserRepository name' email' now s
      = create {| CreateUserDto.name := name'; CreateUserDto.email := email' |}
          now s
      /\ exists (user : User) (s' : State),
           registerUser InMemoryUserRepository name' email' now s
           = (Normal user, s')
           /\ email user = VString email' /\ name user = VString name'
           /\ id user = VString (Number_toString (nextId s))
           /\ Map_get (Number_toString (nextId s)) (users s') = Some user
           /\ forall name2 now2,
                registerUser InMemoryUserRepository name2 email' now2 s'
                = (Throw (DuplicateError email'), s')).
Proof.
  split; [|split].
  - destruct (findByEmail_loop email' (Map_values (users s))) as [u|] eqn:E.
    + assert (Hex : exists user, user ∈ Map_values (users s) /\ email user = VString email').
      { pose proof (findByEmail_loop_first email' (Map_values (users s))) as H.
        rewrite E in H. destruct H as (before & after & Hv & He & _).
        exists u. split; [|done]. rewrite Hv. apply elem_of_app. right. left. }
      rewrite registerUser_duplicate by done. done.
    + apply findByEmail_loop_None in E.
      rewrite registerUser_fresh by done. simpl. split; [done | contradiction].
  - apply registerUser_duplicate.
  - intros Hno. split; [by apply registerUser_fresh|].
    rewrite registerUser_fresh by done.
    eexists _, _. split; [reflexivity|]. simpl.
    split; [done|]. split; [done|]. split; [done|].
    split; [apply Map_get_set_eq|].
    intros name2 now2. apply registerUser_duplicate. simpl.
    eexists. split; [apply Map_set_value_in | done].
Qed.

Lemma C3_registerUser_duplicate_iff_email_stored_witness :
  (~ exists user,
       user ∈ Map_values (users new_InMemoryUserRepository)
       /\ email user = VString "a@x.com")
  /\ exists (user : User) (s' : State),
       registerUser InMemoryUserRepository "Alice" "a@x.com" 1000
         new_InMemoryUserRepository
       = (Normal user, s')
       /\ registerUser InMemoryUserRepository "Alice2" "a@x.com" 2000 s'
          = (Throw (DuplicateError "a@x.com"), s').
Proof.
  assert (H : ~ exists user,
                user ∈ Map_values (users new_InMemoryUserRepository)
                /\ email user = VString "a@x.com").
  { apply findByEmail_loop_None. reflexivity. }
  split; [exact H|].
  destruct (proj2 (proj2 (C3_registerUser_duplicate_iff_email_stored
                            new_InMemoryUserRepository "Alice" "a@x.com" 1000)) H)
    as (_ & user & s' & Hreg & _ & _ & _ & _ & Hdup).
  exists user, s'. split; [exact Hreg | exact (Hdup "Alice2" 2000)].
Defined.

(** ** Snapshots *)

Lemma step_arrays (c : Call) (s : State) :
  exists extra, arrays (step c s) = arrays s ++ extra.
Proof.
  destruct c as [data now|i|e| |i data|i]; simpl;
    try (exists []; by rewrite app_nil_r).
  - by eexists.
  - unfold update. destruct (Map_get i (users s)); simpl;
      exists []; by rewrite app_nil_r.
  - unfold delete. destruct (Map_has i (users s)); simpl;
      exists []; by rewrite app_nil_r.
Qed.

Lemma run_cons (c : Call) (cs : list Call) (s : State) :
  run (c :: cs) s = run cs (step c s).
Proof. reflexivity. Qed.

Lemma run_arrays (cs : list Call) (s : State) :
  exists extra, arrays (run cs s) = arrays s ++ extra.
Proof.
  revert s. induction cs as [|c cs IH]; intros s.
  - exists []. by rewrite app_nil_r.
  - destruct (IH (step c s)) as [extra2 H2].
    destruct (step_arrays c s) as [extra1 H1].
    exists (extra1 ++ extra2). by rewrite run_cons, H2, H1, app_assoc.
Qed.

(** Every call keeps the keys of the [Map] unique. *)
Lemma step_Map_wf (c : Call) (s : State) :
  Map_wf (users s) -> Map_wf (users (step c s)).
Proof.
  intros Hwf. destruct c as [data now|i|e| |i data|i]; simpl; try done.
  - by apply Map_wf_set.
  - unfold update. destruct (Map_get i (users s)); simpl; [|done].
    by apply Map_wf_set.
  - unfold delete. destruct (Map_has i (users s)); simpl; [|done].
    by apply Map_wf_delete.
Qed.

Lemma run_Map_wf (cs : list Call) :
  Map_wf (users (run cs new_InMemoryUserRepository)).
Proof.
  assert (H : forall s, Map_wf (users s) -> Map_wf (users (run cs s))).
  { induction cs as [|c cs IH]; intros s Hwf; [done|].
    rewrite run_cons. by apply IH, step_Map_wf. }
  apply H. apply NoDup_nil_2.
Qed.

(** No call writes to an array that exists. *)
Lemma read_array_run (cs : list Call) (s : State) (a : ArrayRef) (l : list User) :
  read_array s a = Some l -> read_array (run cs s) a = Some l.
Proof.
  unfold read_array. intros H. destruct (run_arrays cs s) as [extra ->].
  by apply lookup_app_l_Some.
Qed.

Lemma step_query_users (c : Call) (s : State) :
  is_query c = true -> users (step c s) = users s.
Proof. by destruct c. Qed.

Lemma run_query_users (cs : list Call) (s : State) :
  Forall (fun c => is_query c = true) cs -> users (run cs s) = users s.
Proof.
  intros H. revert s. induction H as [|c cs Hc _ IH]; intros s; [done|].
  by rewrite run_cons, IH, step_query_users.
Qed.

Lemma Map_values_get {V} (m : JsMap V) (v : V) :
  Map_wf m -> v ∈ Map_values m <-> exists k, Map_get k m = Some v.
Proof.
  intros Hwf. split; [|intros [k Hk]; by eapply Map_get_Some_value].
  unfold Map_wf, Map_keys, Map_values in *.
  induction m as [|[k' v'] m IH]; simpl in *.
  - intros H. by apply elem_of_nil in H.
  - apply NoDup_cons in Hwf as [Hk' Hwf]. intros H.
    apply elem_of_cons in H as [->|H].
    + exists k'. by rewrite String.eqb_refl.
    + destruct (IH Hwf H) as [k Hk]. exists k.
      destruct (String.eqb_spec k' k) as [->|_]; [|done].
      apply Map_get_Some_key in Hk. contradiction.
Qed.

(** C7: [findAll] returns a new array holding the stored values in the
    order of the store's entries and leaves the store as it is.  The array
    is a copy: whatever calls follow ([create], [update] and [delete]
    among them), it reads as it did when it was returned.  A second
    [findAll], with only queries in between, returns another array of the
    same contents, hence of the same length.  Every stored value is in the
    array; the order of the entries is that of insertion: [create] under a
    new key adds at the end, [update] keeps every key where it is and
    [delete] keeps the remaining values in their order. *)
Theorem C7_findAll_returns_snapshot (s : State) :
  exists (a : ArrayRef) (s' : State),
    findAll s = (Normal a, s')
    /\ read_array s a = None
    /\ read_array s' a = Some (Map_values (users s))
    /\ users s' = users s
    /\ nextId s' = nextId s
    /\ (forall cs : list Call,
         read_array (run cs s') a = Some (Map_values (users s)))
    /\ (forall cs : list Call,
         Forall (fun c => is_query c = true) cs ->
         exists (a2 : ArrayRef) (s2 : State),
           findAll (run cs s') = (Normal a2, s2)
           /\ a2 <> a
           /\ read_array s2 a2 = read_array s2 a
           /\ (forall l l2, read_array s2 a = Some l ->
                 read_array s2 a2 = Some l2 -> length l2 = length l))
    /\ (Map_wf (users s) ->
        forall user,
          user ∈ Map_values (users s)
          <-> exists k, findById k s = (Normal (Some user), s))
    /\ (forall data now,
         Number_toString (nextId s) ∉ Map_keys (users s) ->
         exists user,
           fst (create data now s) = Normal user
           /\ Map_values (users (create data now s).2)
              = Map_values (users s) ++ [user])
    /\ (forall i data,
         i ∈ Map_keys (users s) ->
         Map_keys (users (update i data s).2) = Map_keys (users s))
    /\ (forall i,
         Map_values (users (delete i s).2) `sublist_of` Map_values (users s)).
Proof.
  exists (length (arrays s)), (findAll s).2.
  assert (Hnew : read_array (findAll s).2 (length (arrays s))
                 = Some (Map_values (users s))).
  { unfold read_array. simpl. by rewrite lookup_app_r, Nat.sub_diag. }
  split; [done|]. split; [by apply lookup_ge_None_2|].
  split; [done|]. split; [done|]. split; [done|].
  split; [intros cs; by apply read_array_run|].
  split; [|split; [|split; [|split]]].
  - intros cs Hq.
    set (s1 := run cs (findAll s).2).
    assert (Hold : read_array s1 (length (arrays s)) = Some (Map_values (users s)))
      by by apply read_array_run.
    assert (Hlt : (length (arrays s) < length (arrays s1))%nat).
    { unfold read_array in Hold. by apply lookup_lt_Some in Hold. }
    assert (Hus : users s1 = users s).
    { unfold s1. by rewrite run_query_users. }
    clearbody s1. exists (length (arrays s1)), (findAll s1).2.
    split; [done|]. split; [lia|].
    assert (H2 : read_array (findAll s1).2 (length (arrays s1))
                 = read_array (findAll s1).2 (length (arrays s))).
    { unfold read_array in *. cbn [findAll arrays snd].
      rewrite lookup_app_r, Nat.sub_diag by done.
      rewrite lookup_app_l by done. by rewrite Hold, Hus. }
    split; [done|]. intros l l2 Hl Hl2. congruence.
  - intros Hwf user. rewrite Map_values_get by done. unfold findById.
    split; intros [k Hk]; exists k; [by rewrite Hk | congruence].
  - intros data now Hfresh. eexists. split; [reflexivity|].
    by apply create_appends.
  - intros i data Hin. destruct (Map_get i (users s)) as [user|] eqn:Hget.
    + rewrite (update_present _ _ _ _ Hget). simpl.
      by apply Map_keys_set_present.
    + apply Map_get_None in Hget. contradiction.
  - intros i. unfold delete. destruct (Map_has i (users s)); simpl; [|done].
    unfold Map_values. apply fmap_sublist, Map_delete_sublist.
Qed.

Lemma C7_findAll_returns_snapshot_witness :
  Map_wf (users two_users)
  /\ (bob_user ∈ Map_values (users two_users)
      <-> exists k, findById k two_users = (Normal (Some bob_user), two_users)).
Proof.
  split; [exact two_users_wf|].
  destruct (C7_findAll_returns_snapshot two_users)
    as (a & s' & _ & _ & _ & _ & _ & _ & _ & Hall & _).
  exact (Hall two_users_wf bob_user).
Defined.

(** The scenario of the spec: Alice and Bob are created, [findAll] returns
    both in that order; after [delete("2")] a new [findAll] returns Alice
    only, and the array returned first still holds both. *)
Example findAll_scenario :
  let s1 := (findAll two_users).2 in
  let s2 := (delete "2" s1).2 in
  let s3 := (findAll s2).2 in
  fst (findAll two_users) = Normal 0%nat
  /\ read_array s1 0 = Some [alice_user; bob_user]
  /\ fst (findAll s2) = Normal 1%nat
  /\ read_array s3 1 = Some [alice_user]
  /\ read_array s3 0 = Some [alice_user; bob_user].
Proof. repeat split. Qed.

(** ** Identifiers *)

Lemma MAX_EXACT_pos : 1 <= MAX_EXACT.
Proof. by compute. Qed.

Lemma Number_succ_exact (n : Z) : n < MAX_EXACT -> Number_succ n = n + 1.
Proof. intros H. unfold Number_succ. by rewrite (proj2 (Z.ltb_lt _ _) H). Qed.

Lemma Number_succ_saturated : Number_succ MAX_EXACT = MAX_EXACT.
Proof. unfold Number_succ. by rewrite Z.ltb_irrefl. Qed.

Lemma Number_toString_inj (n1 n2 : Z) :
  Number_toString n1 = Number_toString n2 -> n1 = n2.
Proof. unfold Number_toString. apply (inj pretty). Qed.

Lemma step_nextId (c : Call) (s : State) :
  is_create c = false -> nextId (step c s) = nextId s.
Proof.
  destruct c as [data now|i|e| |i data|i]; simpl; try done.
  - intros _. unfold update. by destruct (Map_get i (users s)).
  - intros _. unfold delete. by destruct (Map_has i (users s)).
Qed.

Lemma created_app (cs1 cs2 : list Call) (s : State) :
  created (cs1 ++ cs2) s = created cs1 s ++ created cs2 (run cs1 s).
Proof.
  revert s. induction cs1 as [|c cs1 IH]; intros s; [done|].
  rewrite run_cons. destruct c; simpl; rewrite IH; done.
Qed.

Lemma run_app (cs1 cs2 : list Call) (s : State) :
  run (cs1 ++ cs2) s = run cs2 (run cs1 s).
Proof. unfold run. apply foldl_app. Qed.

Lemma count_creates_app (cs1 cs2 : list Call) :
  count_creates (cs1 ++ cs2) = (count_creates cs1 + count_creates cs2)%nat.
Proof. induction cs1 as [|c cs1 IH]; simpl; [done|]. rewrite IH. lia. Qed.

(** While the counter is exact, the [create] calls of a sequence hand out
    the numbers from the counter on, one after the other. *)
Lemma created_ids_from (cs : list Call) (s : State) :
  nextId s + Z.of_nat (count_creates cs) <= MAX_EXACT + 1 ->
  id <$> created cs s
  = VString <$> (Number_toString <$> seqZ (nextId s) (Z.of_nat (count_creates cs))).
Proof.
  revert s. induction cs as [|c cs IH]; intros s Hle; [done|].
  destruct (is_create c) eqn:Hc.
  - destruct c as [data now| | | | |]; try discriminate.
    cbn [count_creates is_create] in *.
    rewrite seqZ_cons by lia. cbn [created create fst].
    rewrite !fmap_cons. f_equal.
    set (s1 := step (CallCreate data now) s).
    assert (Hn1 : nextId s1 = Number_succ (nextId s)) by done.
    clearbody s1.
    destruct (decide (nextId s < MAX_EXACT)) as [Hlt|Hge].
    + rewrite Number_succ_exact in Hn1 by done.
      rewrite IH by lia. rewrite Hn1. do 3 f_equal; lia.
    + assert (Hz : count_creates cs = 0%nat) by lia.
      rewrite IH.
      * rewrite Hz. by rewrite !seqZ_nil by lia.
      * rewrite Hn1, Hz. unfold Number_succ.
        destruct (nextId s <? MAX_EXACT); lia.
  - assert (Hn : nextId (step c s) = nextId s) by by apply step_nextId.
    assert (Hcr : created (c :: cs) s = created cs (step c s)).
    { by destruct c. }
    rewrite Hcr. cbn [count_creates] in *. rewrite Hc in *.
    rewrite IH; rewrite Hn; [done | lia].
Qed.

Lemma Map_keys_set_subset {V} (k k0 : string) (v : V) (m : JsMap V) :
  k0 ∈ Map_keys (Map_set k v m) -> k0 = k \/ k0 ∈ Map_keys m.
Proof.
  destruct (decide (k ∈ Map_keys m)) as [Hin|Hout].
  - rewrite Map_keys_set_present by done. by right.
  - rewrite Map_set_fresh by done. unfold Map_keys. rewrite fmap_app.
    intros H. apply elem_of_app in H as [H|H]; [by right|].
    apply list_elem_of_singleton in H. by left.
Qed.

Lemma step_keys_issued (c : Call) (s : State) :
  keys_issued s ->
  (is_create c = true -> nextId s < MAX_EXACT) ->
  keys_issued (step c s).
Proof.
  intros [Hpos Hkeys] Hexact. rewrite Forall_forall in Hkeys.
  destruct c as [data now|i|e| |i data|i];
    try (split; [done | by apply Forall_forall]).
  - specialize (Hexact eq_refl). unfold keys_issued.
    cbn [step create snd nextId users]. rewrite Number_succ_exact by done.
    split; [lia|]. apply Forall_forall. intros k Hk.
    apply Map_keys_set_subset in Hk as [->|Hk].
    + exists (nextId s). split; [lia | done].
    + destruct (Hkeys k Hk) as (n & Hn & ->). exists n. split; [lia | done].
  - cbn [step]. unfold update.
    destruct (Map_get i (users s)) as [user|] eqn:Hget;
      [|split; [done | by apply Forall_forall]].
    split; [done|]. apply Forall_forall. intros k Hk. cbn in Hk.
    apply Map_keys_set_subset in Hk as [->|Hk]; [|by apply Hkeys].
    apply Hkeys. by eapply Map_get_Some_key.
  - cbn [step]. unfold delete.
    destruct (Map_has i (users s));
      [|split; [done | by apply Forall_forall]].
    split; [done|]. apply Forall_forall. intros k Hk. cbn in Hk.
    apply Hkeys. by eapply Map_keys_delete_subset.
Qed.

Lemma step_create_nextId (c : Call) (s : State) :
  is_create c = true -> nextId (step c s) = Number_succ (nextId s).
Proof. by destruct c. Qed.

Lemma run_keys_issued (cs : list Call) (s : State) :
  keys_issued s ->
  nextId s + Z.of_nat (count_creates cs) <= MAX_EXACT ->
  keys_issued (run cs s)
  /\ nextId (run cs s) = nextId s + Z.of_nat (count_creates cs).
Proof.
  revert s. induction cs as [|c cs IH]; intros s Hinv Hle.
  - split; [done | simpl; lia].
  - rewrite run_cons. cbn [count_creates] in *.
    destruct (is_create c) eqn:Hc.
    + assert (Hlt : nextId s < MAX_EXACT) by lia.
      assert (Hn : nextId (step c s) = nextId s + 1).
      { rewrite step_create_nextId by done. by apply Number_succ_exact. }
      destruct (IH (step c s)) as [Hinv' Hn'].
      * apply step_keys_issued; [done | by rewrite Hc].
      * lia.
      * split; [done | lia].
    + assert (Hn : nextId (step c s) = nextId s) by by apply step_nextId.
      destruct (IH (step c s)) as [Hinv' Hn'].
      * apply step_keys_issued; [done | by rewrite Hc].
      * lia.
      * split; [done | lia].
Qed.

Lemma new_keys_issued : keys_issued new_InMemoryUserRepository.
Proof. split; [done | constructor]. Qed.

Lemma keys_issued_fresh (s : State) :
  keys_issued s -> Number_toString (nextId s) ∉ Map_keys (users s).
Proof.
  intros [_ Hkeys] Hin. rewrite Forall_forall in Hkeys.
  destruct (Hkeys _ Hin) as (n & Hn & Heq).
  apply Number_toString_inj in Heq. lia.
Qed.

(** C1, for sequences with at most [2^53] [create] calls: on a new store,
    the [create] calls of any sequence of calls, deletes included, return
    the identifiers "1", "2", "3", ... in call order.  They are pairwise
    distinct, increase strictly as numbers, and none is a key of the store
    at the time it is handed out, so no identifier is used twice. *)
Theorem C1_create_ids_distinct_increasing (cs : list Call) :
  Z.of_nat (count_creates cs) <= MAX_EXACT ->
  id <$> created cs new_InMemoryUserRepository
  = VString <$> (Number_toString <$> seqZ 1 (Z.of_nat (count_creates cs)))
  /\ NoDup (id <$> created cs new_InMemoryUserRepository)
  /\ (forall (i j : nat) (ni nj : Z),
       (i < j)%nat ->
       (id <$> created cs new_InMemoryUserRepository) !! i
         = Some (VString (Number_toString ni)) ->
       (id <$> created cs new_InMemoryUserRepository) !! j
         = Some (VString (Number_toString nj)) ->
       ni < nj)
  /\ (forall pre data now post,
       cs = pre ++ CallCreate data now :: post ->
       Number_toString (nextId (run pre new_InMemoryUserRepository))
       ∉ Map_keys (users (run pre new_InMemoryUserRepository))).
Proof.
  intros Hle.
  assert (Hids : id <$> created cs new_InMemoryUserRepository
                 = VString <$> (Number_toString
                                  <$> seqZ 1 (Z.of_nat (count_creates cs)))).
  { apply (created_ids_from cs new_InMemoryUserRepository). simpl. lia. }
  split; [done|]. rewrite Hids. split; [|split].
  - apply NoDup_fmap_2; [by intros ? ? [= ?]|].
    apply NoDup_fmap_2; [exact Number_toString_inj | apply NoDup_seqZ].
  - intros i j ni nj Hij Hi Hj.
    rewrite !list_lookup_fmap in Hi, Hj.
    destruct (seqZ 1 _ !! i) as [mi|] eqn:Ei; [|done].
    destruct (seqZ 1 _ !! j) as [mj|] eqn:Ej; [|done].
    simpl in Hi, Hj. injection Hi as Hi. injection Hj as Hj.
    apply Number_toString_inj in Hi, Hj. subst mi mj.
    apply lookup_seqZ in Ei, Ej. lia.
  - intros pre data now post ->. apply keys_issued_fresh.
    rewrite count_creates_app in Hle. cbn [count_creates is_create] in Hle.
    apply (run_keys_issued pre new_InMemoryUserRepository).
    + apply new_keys_issued.
    + simpl. lia.
Qed.

Lemma C1_create_ids_distinct_increasing_witness :
  Z.of_nat (count_creates
              [CallCreate alice_dto 1000; CallDelete "1";
               CallCreate bob_dto 2000; CallFindAll;
               CallCreate alice_dto 3000]) <= MAX_EXACT
  /\ id <$> created
              [CallCreate alice_dto 1000; CallDelete "1";
               CallCreate bob_dto 2000; CallFindAll;
               CallCreate alice_dto 3000] new_InMemoryUserRepository
     = [VString "1"; VString "2"; VString "3"].
Proof.
  assert (H : Z.of_nat (count_creates
                [CallCreate alice_dto 1000; CallDelete "1";
                 CallCreate bob_dto 2000; CallFindAll;
                 CallCreate alice_dto 3000]) <= MAX_EXACT).
  { vm_compute. discriminate. }
  split; [exact H|].
  exact (proj1 (C1_create_ids_distinct_increasing _ H)).
Defined.

Lemma count_creates_replicate (n : nat) (c : Call) :
  is_create c = true -> count_creates (replicate n c) = n.
Proof. intros Hc. induction n as [|n IH]; simpl; [done|]. by rewrite Hc, IH. Qed.

(** Once the counter has reached [2^53] it stays there, and [create]
    returns the identifier it returned the call before. *)
Lemma create_twice_saturated (data1 data2 : CreateUserDto.t) (now1 now2 : Z)
    (s : State) :
  nextId s = MAX_EXACT ->
  id <$> created [CallCreate data1 now1; CallCreate data2 now2] s
  = [VString (Number_toString MAX_EXACT); VString (Number_toString MAX_EXACT)].
Proof.
  intros H. cbn [created create fst step snd].
  rewrite !fmap_cons. cbn [nextId]. rewrite H, Number_succ_saturated.
  by rewrite !(proj1 (mkUser_fields _ _ _ _)).
Qed.

(** C1 as stated fails: of [2^53 + 1] calls of [create] on a new store, the
    last two return the same identifier. *)
Lemma C1_identifier_reused_after_2_pow_53_creates :
  ~ NoDup (id <$> created
                    (replicate (Z.to_nat (MAX_EXACT + 1)) (CallCreate alice_dto 0))
                    new_InMemoryUserRepository).
Proof.
  pose proof MAX_EXACT_pos as Hpos.
  assert (Hn : exists n0 : nat,
             Z.of_nat n0 = MAX_EXACT - 1
             /\ Z.to_nat (MAX_EXACT + 1) = (n0 + 2)%nat).
  { exists (Z.to_nat (MAX_EXACT - 1)). lia. }
  destruct Hn as (n0 & Hn0 & ->).
  rewrite replicate_add, created_app, fmap_app.
  destruct (run_keys_issued (replicate n0 (CallCreate alice_dto 0))
              new_InMemoryUserRepository) as [_ Hnext].
  { apply new_keys_issued. }
  { rewrite count_creates_replicate by done. simpl. lia. }
  rewrite count_creates_replicate in Hnext by done.
  assert (Hmax : nextId (run (replicate n0 (CallCreate alice_dto 0))
                           new_InMemoryUserRepository) = MAX_EXACT).
  { rewrite Hnext. simpl. lia. }
  change (replicate 2 (CallCreate alice_dto 0))
    with [CallCreate alice_dto 0; CallCreate alice_dto 0].
  rewrite (create_twice_saturated _ _ _ _ _ Hmax).
  intros Hnd. apply NoDup_app in Hnd as (_ & _ & Hnd).
  apply NoDup_cons in Hnd as [Hnotin _]. apply Hnotin. left.
Qed.

(** ** The converter *)

Section Converter.
Import Mapper.
Variable Date_parse : string -> option Z.
Variable toLocaleDateString : Date -> string.

(** C8: converting a row to an entity and the entity to a response keeps
    the identifier ([user_id] becomes [id]) and the email ([user_email]
    becomes [email]); the composition does not fail. *)
Theorem C8_toDto_of_toEntity_keeps_id_and_email (row : UserRow.t) :
  exists dto : UserResponseDto.t,
    toDto_of_toEntity Date_parse toLocaleDateString row = Normal dto
    /\ UserResponseDto.id dto = UserRow.user_id row
    /\ UserResponseDto.email dto = UserRow.user_email row.
Proof. eexists. split; [reflexivity|]. by split. Qed.

(** C9, as the code has it: [toEntity] validates nothing and never fails.
    It returns an entity with the row's identifier, name and email, whose
    timestamp is the parsed one when the string parses, and an invalid
    date when it does not. *)
Theorem C9_toEntity_never_fails (row : UserRow.t) :
  exists entity : UserEntity.t,
    toEntity Date_parse row = Normal entity
    /\ UserEntity.id entity = UserRow.user_id row
    /\ UserEntity.name entity = UserRow.user_name row
    /\ UserEntity.email entity = UserRow.user_email row
    /\ (forall ms, Date_parse (UserRow.created_at row) = Some ms ->
        UserEntity.createdAt entity = TimeValue ms)
    /\ (Date_parse (UserRow.created_at row) = None ->
        UserEntity.createdAt entity = InvalidDate).
Proof.
  eexists. split; [reflexivity|]. simpl. unfold Date_of_string.
  repeat split; intros; by rewrite H.
Qed.
End Converter.

Lemma C9_toEntity_never_fails_witness :
  Mapper.Date_parse_utc (Mapper.UserRow.created_at Mapper.dbRow)
  = Some 1718447400000
  /\ exists entity : Mapper.UserEntity.t,
       Mapper.toEntity Mapper.Date_parse_utc Mapper.dbRow = Normal entity
       /\ Mapper.UserEntity.createdAt entity = TimeValue 1718447400000.
Proof.
  split; [reflexivity|].
  destruct (C9_toEntity_never_fails Mapper.Date_parse_utc Mapper.dbRow)
    as (entity & Hent & _ & _ & _ & Hsome & _).
  exists entity. split; [exact Hent | exact (Hsome _ eq_refl)].
Defined.

(** C9 as stated fails: a row whose timestamp does not parse is not
    rejected; [toEntity] returns an entity holding an invalid date. *)
Lemma C9_unparseable_timestamp_not_rejected :
  Mapper.Date_parse_utc (Mapper.UserRow.created_at Mapper.garbage_row) = None
  /\ is_Throw (Mapper.toEntity Mapper.Date_parse_utc Mapper.garbage_row) = false
  /\ Mapper.toEntity Mapper.Date_parse_utc Mapper.garbage_row
     = Normal {| Mapper.UserEntity.id := "usr_42";
                 Mapper.UserEntity.name := "Alice Johnson";
                 Mapper.UserEntity.email := "alice@example.com";
                 Mapper.UserEntity.createdAt := InvalidDate |}.
Proof. repeat split. Qed.

(** ** Further properties of the store *)

Lemma findByEmail_loop_Some_in (email' : string) (values : list User) (user : User) :
  findByEmail_loop email' values = Some user ->
  user ∈ values /\ email user = VString email'.
Proof.
  intros H. pose proof (findByEmail_loop_first email' values) as Hf.
  rewrite H in Hf. destruct Hf as (before & after & -> & He & _).
  split; [|done]. apply elem_of_app. right. left.
Qed.

Lemma findByEmail_loop_finds (email' : string) (values : list User) (user : User) :
  user ∈ values ->
  email user = VString email' ->
  exists found, findByEmail_loop email' values = Some found.
Proof.
  intros Hin He.
  destruct (findByEmail_loop email' values) as [found|] eqn:E; [by eexists|].
  apply findByEmail_loop_None in E. exfalso. apply E. by exists user.
Qed.

(** X1: [create] returns a user with the name and email it was given, the
    clock reading as creation time and the counter as identifier.  Right
    after, [findById] on that identifier returns this user, [findById] on
    any other identifier answers as before, [findByEmail] on its email
    finds a user of that email, and no array handed out is touched. *)
Theorem X1_create_then_lookup (s : State) (data : CreateUserDto.t) (now : Z) :
  exists (user : User) (s' : State),
    create data now s = (Normal user, s')
    /\ id user = VString (Number_toString (nextId s))
    /\ name user = VString (CreateUserDto.name data)
    /\ email user = VString (CreateUserDto.email data)
    /\ createdAt user = VDate (TimeValue now)
    /\ findById (Number_toString (nextId s)) s' = (Normal (Some user), s')
    /\ (forall k, k <> Number_toString (nextId s) ->
        fst (findById k s') = fst (findById k s))
    /\ (exists found,
          findByEmail (CreateUserDto.email data) s' = (Normal (Some found), s')
          /\ email found = email user)
    /\ arrays s' = arrays s.
Proof.
  eexists _, _. split; [reflexivity|].
  do 4 (split; [done|]). split; [|split; [|split; [|done]]].
  - unfold findById. cbn [users]. by rewrite Map_get_set_eq.
  - intros k Hk. unfold findById. cbn [users fst]. f_equal.
    apply Map_get_set_ne. congruence.
  - unfold findByEmail. cbn [users].
    match goal with |- context [Map_set ?k ?u _] =>
      destruct (findByEmail_loop_finds (CreateUserDto.email data)
                  (Map_values (Map_set k u (users s))) u)
        as [found Hfound]; [apply Map_set_value_in | done |]
    end.
    exists found. rewrite Hfound. split; [done|].
    by apply findByEmail_loop_Some_in in Hfound as [_ ->].
Qed.

Lemma X1_create_then_lookup_witness :
  "2" <> Number_toString (nextId two_users)
  /\ exists (user : User) (s' : State),
       create alice_dto 3000 two_users = (Normal user, s')
       /\ fst (findById "2" s') = Normal (Some bob_user).
Proof.
  assert (Hne : "2" <> Number_toString (nextId two_users)) by discriminate.
  split; [exact Hne|].
  destruct (X1_create_then_lookup two_users alice_dto 3000)
    as (user & s' & Hc & _ & _ & _ & _ & _ & Hother & _).
  exists user, s'. split; [exact Hc|]. rewrite (Hother "2" Hne). reflexivity.
Defined.

(** *** Invariants of the store *)

Lemma Forall_Map_set {V} (P : string * V -> Prop) (k : string) (v : V) (m : JsMap V) :
  Forall P m -> P (k, v) -> Forall P (Map_set k v m).
Proof.
  intros Hm Hv. induction Hm as [|[k' v'] m Hkv Hm IH]; simpl.
  - by repeat constructor.
  - destruct (String.eqb_spec k' k) as [->|_]; by constructor.
Qed.

Lemma Forall_Map_delete {V} (P : string * V -> Prop) (k : string) (m : JsMap V) :
  Forall P m -> Forall P (Map_delete k m).
Proof.
  intros Hm. induction Hm as [|[k' v'] m Hkv Hm IH]; simpl; [done|].
  destruct (String.eqb k' k); [done | by constructor].
Qed.

Lemma Forall_Map_get {V} (P : string * V -> Prop) (k : string) (v : V) (m : JsMap V) :
  Forall P m -> Map_get k m = Some v -> P (k, v).
Proof.
  intros Hm. induction Hm as [|[k' v'] m Hkv Hm IH]; simpl; [done|].
  destruct (String.eqb_spec k' k) as [->|_]; [by intros [= ->] | done].
Qed.

(** A call keeps every user under its own identifier, unless it is an
    [update] whose patch carries an [id]. *)
Lemma step_ids_are_keys (c : Call) (s : State) :
  keeps_id c -> ids_are_keys s -> ids_are_keys (step c s).
Proof.
  unfold ids_are_keys. intros Hc Hinv.
  destruct c as [data now|i|e| |i data|i]; simpl; try done.
  - by apply Forall_Map_set.
  - unfold update. destruct (Map_get i (users s)) as [user|] eqn:Hget; [|done].
    simpl. apply Forall_Map_set; [done|]. simpl in *.
    unfold id. rewrite get_spread, Hc.
    by apply (Forall_Map_get _ _ _ _ Hinv Hget).
  - unfold delete. destruct (Map_has i (users s)); simpl; [|done].
    by apply Forall_Map_delete.
Qed.

Lemma ids_are_keys_fmap (s : State) :
  ids_are_keys s -> id <$> Map_values (users s) = VString <$> Map_keys (users s).
Proof.
  unfold ids_are_keys, Map_values, Map_keys. intros H.
  induction H as [|[k u] m Hku _ IH]; [done|].
  rewrite !fmap_cons. simpl in *. by rewrite Hku, IH.
Qed.

(** X2: whatever calls were made on a new store, it has at most one entry
    per identifier.  When no [update] among them was given a patch that
    carries an [id] property, every user is filed under its own
    identifier: the users [findAll] lists have pairwise distinct
    identifiers, and a user that [findById] returns carries the identifier
    asked for. *)
Theorem X2_store_keeps_one_user_per_id (cs : list Call) :
  Map_wf (users (run cs new_InMemoryUserRepository))
  /\ (Forall keeps_id cs ->
      ids_are_keys (run cs new_InMemoryUserRepository)
      /\ NoDup (id <$> Map_values (users (run cs new_InMemoryUserRepository)))
      /\ (forall k user,
           fst (findById k (run cs new_InMemoryUserRepository))
           = Normal (Some user) ->
           id user = VString k)).
Proof.
  split; [apply run_Map_wf|]. intros Hcs.
  pose proof (run_Map_wf cs) as Hwf.
  assert (Hkeys : ids_are_keys (run cs new_InMemoryUserRepository)).
  { assert (H : forall s, ids_are_keys s -> ids_are_keys (run cs s)).
    { clear Hwf. induction Hcs as [|c cs Hc Hcs IH]; intros s Hs; [done|].
      rewrite run_cons. by apply IH, step_ids_are_keys. }
    apply H. constructor. }
  split; [done|]. split.
  - rewrite ids_are_keys_fmap by done.
    apply NoDup_fmap_2; [by intros ? ? [= ?] | done].
  - intros k user Hfind. unfold findById in Hfind. simpl in Hfind.
    injection Hfind as Hget.
    by apply (Forall_Map_get _ _ _ _ Hkeys Hget).
Qed.

Lemma X2_store_keeps_one_user_per_id_witness :
  Forall keeps_id [CallCreate alice_dto 1000; CallCreate bob_dto 2000;
                   CallUpdate "2" name_patch]
  /\ (forall user,
        fst (findById "2" (run [CallCreate alice_dto 1000;
                                CallCreate bob_dto 2000;
                                CallUpdate "2" name_patch]
                             new_InMemoryUserRepository))
        = Normal (Some user) ->
        id user = VString "2").
Proof.
  assert (H : Forall keeps_id [CallCreate alice_dto 1000; CallCreate bob_dto 2000;
                               CallUpdate "2" name_patch]).
  { repeat constructor. }
  split; [exact H|].
  destruct (proj2 (X2_store_keeps_one_user_per_id _) H) as (_ & _ & Hid).
  exact (Hid "2").
Defined.

(** *** The counter *)

Lemma Number_succ_min (n : Z) :
  n <= MAX_EXACT -> Number_succ n = Z.min (n + 1) MAX_EXACT.
Proof.
  intros H. unfold Number_succ. destruct (Z.ltb_spec n MAX_EXACT); lia.
Qed.

Lemma run_nextId (cs : list Call) (s : State) :
  nextId s <= MAX_EXACT ->
  nextId (run cs s) = Z.min (nextId s + Z.of_nat (count_creates cs)) MAX_EXACT.
Proof.
  revert s. induction cs as [|c cs IH]; intros s Hle.
  - simpl. lia.
  - rewrite run_cons. cbn [count_creates]. destruct (is_create c) eqn:Hc.
    + pose proof (step_create_nextId c s Hc) as Hn.
      rewrite Number_succ_min in Hn by done.
      rewrite IH by lia. rewrite Hn. lia.
    + pose proof (step_nextId c s Hc) as Hn.
      rewrite IH by lia. rewrite Hn. lia.
Qed.

Lemma Map_set_length {V} (k : string) (v : V) (m : JsMap V) :
  (length (Map_set k v m) <= S (length m))%nat.
Proof.
  induction m as [|[k' v'] m IH]; simpl; [lia|].
  destruct (String.eqb k' k); simpl; lia.
Qed.

Lemma Map_delete_length_le {V} (k : string) (m : JsMap V) :
  (length (Map_delete k m) <= length m)%nat.
Proof.
  induction m as [|[k' v'] m IH]; simpl; [lia|].
  destruct (String.eqb k' k); simpl; lia.
Qed.

Lemma step_length (c : Call) (s : State) :
  (length (users (step c s))
   <= (if is_create c then 1 else 0) + length (users s))%nat.
Proof.
  destruct c as [data now|i|e| |i data|i]; simpl; try lia.
  - apply Map_set_length.
  - unfold update. destruct (Map_get i (users s)) as [user|] eqn:Hget;
      simpl; [|lia].
    rewrite <- !(length_fmap fst). fold (Map_keys (Map_set i (spread user data) (users s))).
    fold (Map_keys (users s)).
    rewrite Map_keys_set_present; [lia|]. by eapply Map_get_Some_key.
  - unfold delete. destruct (Map_has i (users s)); simpl; [|lia].
    apply Map_delete_length_le.
Qed.

(** X3: on a new store the counter is one more than the number of [create]
    calls made so far, capped at [2^53]; no other call changes it, so a
    [delete] never frees an identifier for the next [create].  The store
    never holds more entries than [create] was called. *)
Theorem X3_counter_counts_creates (cs : list Call) :
  nextId (run cs new_InMemoryUserRepository)
  = Z.min (1 + Z.of_nat (count_creates cs)) MAX_EXACT
  /\ (length (users (run cs new_InMemoryUserRepository))
      <= count_creates cs)%nat.
Proof.
  split.
  - apply (run_nextId cs new_InMemoryUserRepository). apply MAX_EXACT_pos.
  - assert (H : forall s,
               (length (users (run cs s)) <= count_creates cs + length (users s))%nat).
    { induction cs as [|c cs IH]; intros s; [simpl; lia|].
      rewrite run_cons. cbn [count_creates].
      pose proof (IH (step c s)). pose proof (step_length c s). lia. }
    specialize (H new_InMemoryUserRepository). simpl in H. lia.
Qed.

(** *** Lookup by email when emails are unique *)

Lemma NoDup_fmap_inj_on {A B} (f : A -> B) (l : list A) (x y : A) :
  NoDup (f <$> l) -> x ∈ l -> y ∈ l -> f x = f y -> x = y.
Proof.
  intros Hnd Hx Hy Hxy.
  apply list_elem_of_lookup in Hx as [i Hi].
  apply list_elem_of_lookup in Hy as [j Hj].
  assert (Hfi : (f <$> l) !! i = Some (f x)) by by rewrite list_lookup_fmap, Hi.
  assert (Hfj : (f <$> l) !! j = Some (f x)) by by rewrite list_lookup_fmap, Hj, Hxy.
  pose proof (NoDup_lookup _ _ _ _ Hnd Hfi Hfj) as ->. congruence.
Qed.

(** X4: [findByEmail] on the email of a stored user always finds a stored
    user of that email; when no two stored users share an email it finds
    that very user. *)
Theorem X4_findByEmail_finds_stored_user
    (s : State) (user : User) (email' : string) :
  user ∈ Map_values (users s) ->
  email user = VString email' ->
  (exists found,
     findByEmail email' s = (Normal (Some found), s)
     /\ found ∈ Map_values (users s)
     /\ email found = email user)
  /\ (emails_unique s ->
      findByEmail email' s = (Normal (Some user), s)).
Proof.
  intros Hin He.
  destruct (findByEmail_loop_finds _ _ _ Hin He) as [found Hfound].
  pose proof (findByEmail_loop_Some_in _ _ _ Hfound) as [Hfin Hfe].
  unfold findByEmail. rewrite Hfound. split.
  - exists found. by rewrite He.
  - intros Huniq. do 3 f_equal.
    apply (NoDup_fmap_inj_on email (Map_values (users s))); [done..|].
    by rewrite He.
Qed.

Lemma two_users_emails_unique : emails_unique two_users.
Proof. unfold emails_unique. compute_done. Qed.

Lemma X4_findByEmail_finds_stored_user_witness :
  (bob_user ∈ Map_values (users two_users))
  /\ email bob_user = VString "bob@example.com"
  /\ emails_unique two_users
  /\ findByEmail "bob@example.com" two_users = (Normal (Some bob_user), two_users).
Proof.
  assert (Hin : bob_user ∈ Map_values (users two_users)).
  { apply (Map_get_Some_value "2"). reflexivity. }
  split; [exact Hin|]. split; [reflexivity|].
  split; [exact two_users_emails_unique|].
  exact (proj2 (X4_findByEmail_finds_stored_user two_users bob_user
                  "bob@example.com" Hin eq_refl)
           two_users_emails_unique).
Defined.

(** ** The service *)

Section MapValues.
Context {V B : Type} (f : V -> B).
Implicit Types (m : JsMap V) (k : string) (v : V).

Lemma Map_set_fmap_values_in k v m (x : B) :
  x ∈ f <$> Map_values (Map_set k v m) -> x = f v \/ x ∈ f <$> Map_values m.
Proof.
  unfold Map_values. induction m as [|[k' v'] m IH]; simpl.
  - intros H. apply list_elem_of_singleton in H. by left.
  - destruct (String.eqb k' k); simpl; rewrite !elem_of_cons; intuition.
Qed.

(** Setting a value whose image is new keeps the images distinct. *)
Lemma Map_set_fmap_values_NoDup k v m :
  NoDup (f <$> Map_values m) ->
  f v ∉ f <$> Map_values m ->
  NoDup (f <$> Map_values (Map_set k v m)).
Proof.
  unfold Map_values. induction m as [|[k' v'] m IH]; simpl.
  - intros _ _. apply NoDup_singleton.
  - rewrite NoDup_cons, not_elem_of_cons. intros [Hv' Hnd] [Hne Hv].
    destruct (String.eqb k' k); simpl; apply NoDup_cons.
    + done.
    + split; [|by apply IH]. intros Hin.
      apply Map_set_fmap_values_in in Hin as [Heq|Hin]; [congruence | done].
Qed.

(** Replacing a value by one of the same image keeps the images. *)
Lemma Map_set_fmap_values_same k v v0 m :
  Map_get k m = Some v0 -> f v = f v0 ->
  f <$> Map_values (Map_set k v m) = f <$> Map_values m.
Proof.
  unfold Map_values. intros Hget Hf.
  induction m as [|[k' v'] m IH]; simpl in *; [done|].
  destruct (String.eqb k' k); simpl.
  - injection Hget as ->. by rewrite Hf.
  - f_equal. by apply IH.
Qed.
End MapValues.

Lemma Forall_Map_values_set {V} (P : V -> Prop) (k : string) (v : V) (m : JsMap V) :
  Forall P (Map_values m) -> P v -> Forall P (Map_values (Map_set k v m)).
Proof.
  unfold Map_values. intros Hm Hv. induction m as [|[k' v'] m IH]; simpl in *.
  - by repeat constructor.
  - apply Forall_cons in Hm as [Hv' Hm].
    destruct (String.eqb k' k); simpl; constructor; auto.
Qed.

Lemma Forall_Map_values_delete {V} (P : V -> Prop) (k : string) (m : JsMap V) :
  Forall P (Map_values m) -> Forall P (Map_values (Map_delete k m)).
Proof.
  unfold Map_values. intros Hm. induction m as [|[k' v'] m IH]; simpl in *; [done|].
  apply Forall_cons in Hm as [Hv' Hm].
  destruct (String.eqb k' k); simpl; [done | constructor; auto].
Qed.

Lemma Forall_Map_values_get {V} (P : V -> Prop) (k : string) (v : V) (m : JsMap V) :
  Forall P (Map_values m) -> Map_get k m = Some v -> P v.
Proof.
  intros Hm Hget. rewrite Forall_forall in Hm. apply Hm.
  by eapply Map_get_Some_value.
Qed.

Lemma not_stored_email (s : State) (email' : string) :
  (~ exists user, user ∈ Map_values (users s) /\ email user = VString email')
  <-> VString email' ∉ email <$> Map_values (users s).
Proof.
  rewrite list_elem_of_fmap. split; intros H (user & H1 & H2); apply H;
    exists user; by split.
Qed.

(** What the service keeps: emails are strings, and no two are alike. *)
Lemma service_step_emails (c : ServiceCall) (s : State) :
  emails_unique s ->
  Forall (fun user => exists e, email user = VString e) (Map_values (users s)) ->
  emails_unique (service_step c s)
  /\ Forall (fun user => exists e, email user = VString e)
       (Map_values (users (service_step c s))).
Proof.
  unfold emails_unique. intros Huniq Hstr.
  destruct c as [n e now|i|i n|i]; cbn [service_step].
  - destruct (findByEmail_loop e (Map_values (users s))) as [found|] eqn:E.
    + rewrite registerUser_duplicate; [done|].
      apply findByEmail_loop_Some_in in E as [? ?]. by eexists.
    + apply findByEmail_loop_None in E. rewrite registerUser_fresh by done.
      cbn [create snd users]. split.
      * apply Map_set_fmap_values_NoDup; [done|]. by apply not_stored_email.
      * apply Forall_Map_values_set; [done|]. by eexists.
  - done.
  - unfold updateUserName. cbn [repo_update InMemoryUserRepository].
    unfold update. destruct (Map_get i (users s)) as [user|] eqn:Hget; [|done].
    cbn [snd users].
    assert (He : email (spread user {[ "name" := VString n ]}) = email user).
    { unfold email. by rewrite get_spread. }
    split.
    + by rewrite (Map_set_fmap_values_same email i _ user).
    + apply Forall_Map_values_set; [done|]. rewrite He.
      by apply (Forall_Map_values_get
                  (fun user => exists e, email user = VString e)
                  i user (users s)).
  - unfold removeUser. cbn [repo_delete InMemoryUserRepository].
    unfold delete. destruct (Map_has i (users s)); [|done].
    cbn [snd users]. split.
    + eapply sublist_NoDup; [exact Huniq|].
      unfold Map_values. apply fmap_sublist, fmap_sublist, Map_delete_sublist.
    + by apply Forall_Map_values_delete.
Qed.

(** X5: a store that is only used through the service never holds two
    users of the same email, whatever calls of [registerUser],
    [getUserProfile], [updateUserName] and [removeUser] were made, so
    [findByEmail] on the email of a stored user returns that user. *)
Theorem X5_service_keeps_emails_unique (cs : list ServiceCall) :
  emails_unique (service_run cs new_InMemoryUserRepository)
  /\ (forall user,
       user ∈ Map_values (users (service_run cs new_InMemoryUserRepository)) ->
       exists email',
         email user = VString email'
         /\ fst (findByEmail email' (service_run cs new_InMemoryUserRepository))
            = Normal (Some user)).
Proof.
  assert (Hinv : emails_unique (service_run cs new_InMemoryUserRepository)
                 /\ Forall (fun user => exists e, email user = VString e)
                      (Map_values (users (service_run cs
                                            new_InMemoryUserRepository)))).
  { assert (H : forall s,
               emails_unique s ->
               Forall (fun user => exists e, email user = VString e)
                 (Map_values (users s)) ->
               emails_unique (service_run cs s)
               /\ Forall (fun user => exists e, email user = VString e)
                    (Map_values (users (service_run cs s)))).
    { induction cs as [|c cs IH]; intros s Hu Hs; [done|].
      destruct (service_step_emails c s Hu Hs) as [Hu' Hs'].
      by apply (IH (service_step c s)). }
    apply H; [apply NoDup_nil_2 | constructor]. }
  destruct Hinv as [Huniq Hstr]. split; [done|]. intros user Hin.
  rewrite Forall_forall in Hstr. destruct (Hstr user Hin) as [email' He].
  exists email'. split; [done|].
  destruct (findByEmail_loop_finds _ _ _ Hin He) as [found Hfound].
  pose proof (findByEmail_loop_Some_in _ _ _ Hfound) as [Hfin Hfe].
  unfold findByEmail. cbn [fst]. rewrite Hfound. do 2 f_equal.
  apply (NoDup_fmap_inj_on email
           (Map_values (users (service_run cs new_InMemoryUserRepository))));
    [done..|]. by rewrite He.
Qed.

Lemma X5_service_keeps_emails_unique_witness :
  (mkUser "1" "Alice Smith" "alice@example.com" (TimeValue 1000)
   ∈ Map_values (users (service_run
        [CallRegisterUser "Alice" "alice@example.com" 1000;
         CallRegisterUser "Bob" "bob@example.com" 2000;
         CallUpdateUserName "1" "Alice Smith";
         CallRegisterUser "Eve" "alice@example.com" 3000;
         CallRemoveUser "2"] new_InMemoryUserRepository)))
  /\ exists email',
       email (mkUser "1" "Alice Smith" "alice@example.com" (TimeValue 1000))
       = VString email'
       /\ fst (findByEmail email' (service_run
             [CallRegisterUser "Alice" "alice@example.com" 1000;
              CallRegisterUser "Bob" "bob@example.com" 2000;
              CallUpdateUserName "1" "Alice Smith";
              CallRegisterUser "Eve" "alice@example.com" 3000;
              CallRemoveUser "2"] new_InMemoryUserRepository))
          = Normal (Some (mkUser "1" "Alice Smith" "alice@example.com"
                            (TimeValue 1000))).
Proof.
  assert (Hin : mkUser "1" "Alice Smith" "alice@example.com" (TimeValue 1000)
                ∈ Map_values (users (service_run
                     [CallRegisterUser "Alice" "alice@example.com" 1000;
                      CallRegisterUser "Bob" "bob@example.com" 2000;
                      CallUpdateUserName "1" "Alice Smith";
                      CallRegisterUser "Eve" "alice@example.com" 3000;
                      CallRemoveUser "2"] new_InMemoryUserRepository))).
  { apply (Map_get_Some_value "1"). reflexivity. }
  split; [exact Hin|].
  exact (proj2 (X5_service_keeps_emails_unique _) _ Hin).
Defined.

Lemma Map_delete_app_fresh {V} (k : string) (v : V) (m : JsMap V) :
  k ∉ Map_keys m -> Map_delete k (m ++ [(k, v)]) = m.
Proof.
  unfold Map_keys. induction m as [|[k' v'] m IH]; simpl.
  - intros _. by rewrite String.eqb_refl.
  - intros H. apply not_elem_of_cons in H as [Hne H].
    destruct (String.eqb_spec k' k) as [->|_]; [done|]. f_equal. by apply IH.
Qed.

(** X6: removing a registered user frees its email but not its identifier.
    In a store whose counter is exact, a user registered under an email
    that is not taken and then removed leaves the entries as they were;
    [getUserProfile] on the identifier answers "not found", and a second
    registration of the same email succeeds under a new identifier. *)
Theorem X6_removeUser_frees_email_not_id
    (s : State) (name1 name2 email' : string) (now1 now2 : Z) :
  keys_issued s ->
  nextId s < MAX_EXACT ->
  (~ exists user, user ∈ Map_values (users s) /\ email user = VString email') ->
  exists (user1 user2 : User) (s1 s2 s3 : State),
    registerUser InMemoryUserRepository name1 email' now1 s = (Normal user1, s1)
    /\ id user1 = VString (Number_toString (nextId s))
    /\ removeUser InMemoryUserRepository (Number_toString (nextId s)) s1
       = (Normal (), s2)
    /\ users s2 = users s
    /\ getUserProfile InMemoryUserRepository (Number_toString (nextId s)) s2
       = (Normal None, s2)
    /\ registerUser InMemoryUserRepository name2 email' now2 s2
       = (Normal user2, s3)
    /\ id user2 <> id user1.
Proof.
  intros Hinv Hlt Hfree.
  pose proof (keys_issued_fresh s Hinv) as Hfresh.
  set (user1 := mkUser (Number_toString (nextId s)) name1 email' (TimeValue now1)).
  set (s2 := {| users := users s; nextId := nextId s + 1; arrays := arrays s |}).
  assert (Hreg : registerUser InMemoryUserRepository name1 email' now1 s
                 = (Normal user1,
                    {| users := users s ++ [(Number_toString (nextId s), user1)];
                       nextId := nextId s + 1; arrays := arrays s |})).
  { rewrite registerUser_fresh by done. unfold create.
    cbn [CreateUserDto.name CreateUserDto.email].
    rewrite Map_set_fresh by done. by rewrite Number_succ_exact. }
  eexists user1, _, _, s2, _. split; [exact Hreg|].
  split; [done|]. split; [|split; [done|split; [|split]]].
  - unfold removeUser. cbn [repo_delete InMemoryUserRepository].
    rewrite delete_present.
    + cbn [users nextId arrays]. by rewrite Map_delete_app_fresh.
    + cbn [users]. unfold Map_keys. rewrite fmap_app.
      apply elem_of_app. right. left.
  - apply Map_get_None in Hfresh.
    unfold getUserProfile. cbn [repo_findById InMemoryUserRepository].
    unfold findById, s2. cbn [users]. by rewrite Hfresh.
  - by apply registerUser_fresh.
  - unfold user1, s2. cbn [nextId CreateUserDto.name CreateUserDto.email].
    rewrite !(proj1 (mkUser_fields _ _ _ _)).
    intros [= Heq]. apply Number_toString_inj in Heq. lia.
Qed.

Lemma two_users_keys_issued : keys_issued two_users.
Proof.
  apply (run_keys_issued [CallCreate alice_dto 1000; CallCreate bob_dto 2000]
           new_InMemoryUserRepository new_keys_issued).
  by compute.
Qed.

Lemma X6_removeUser_frees_email_not_id_witness :
  keys_issued two_users
  /\ nextId two_users < MAX_EXACT
  /\ (~ exists user,
        user ∈ Map_values (users two_users)
        /\ email user = VString "carol@example.com")
  /\ exists (user1 user2 : User) (s1 s2 s3 : State),
       registerUser InMemoryUserRepository "Carol" "carol@example.com" 3000
         two_users = (Normal user1, s1)
       /\ id user1 = VString (Number_toString (nextId two_users))
       /\ removeUser InMemoryUserRepository (Number_toString (nextId two_users))
            s1 = (Normal (), s2)
       /\ users s2 = users two_users
       /\ getUserProfile InMemoryUserRepository
            (Number_toString (nextId two_users)) s2 = (Normal None, s2)
       /\ registerUser InMemoryUserRepository "Caroline" "carol@example.com" 4000
            s2 = (Normal user2, s3)
       /\ id user2 <> id user1.
Proof.
  assert (Hlt : nextId two_users < MAX_EXACT) by reflexivity.
  assert (Hfree : ~ exists user,
                    user ∈ Map_values (users two_users)
                    /\ email user = VString "carol@example.com").
  { apply findByEmail_loop_None. reflexivity. }
  split; [exact two_users_keys_issued|]. split; [exact Hlt|].
  split; [exact Hfree|].
  exact (X6_removeUser_frees_email_not_id two_users "Carol" "Caroline"
           "carol@example.com" 3000 4000 two_users_keys_issued Hlt Hfree).
Defined.

(** X7: [updateUserName] changes the name and nothing else.  On an
    identifier that is not stored it fails with the not-found error and
    leaves the store as it was.  On a stored one it returns the user with
    the new name and the identifier, email, creation time and every other
    property it had; [getUserProfile] then returns that user, and the keys
    of the store and the emails of its users, in order, are as before. *)
Theorem X7_updateUserName_changes_only_name (s : State) (id' name' : string) :
  (id' ∉ Map_keys (users s) ->
   updateUserName InMemoryUserRepository id' name' s
   = (Throw (NotFoundError id'), s))
  /\ (forall user,
       Map_get id' (users s) = Some user ->
       exists (updated : User) (s' : State),
         updateUserName InMemoryUserRepository id' name' s
         = (Normal updated, s')
         /\ name updated = VString name'
         /\ id updated = id user
         /\ email updated = email user
         /\ createdAt updated = createdAt user
         /\ (forall k, k <> "name" -> updated !! k = user !! k)
         /\ getUserProfile InMemoryUserRepository id' s'
            = (Normal (Some updated), s')
         /\ Map_keys (users s') = Map_keys (users s)
         /\ email <$> Map_values (users s') = email <$> Map_values (users s)
         /\ nextId s' = nextId s
         /\ arrays s' = arrays s).
Proof.
  unfold updateUserName, getUserProfile.
  cbn [repo_update repo_findById InMemoryUserRepository].
  split; [apply update_absent|].
  intros user Hget. rewrite (update_present _ _ _ _ Hget).
  eexists _, _. split; [reflexivity|]. cbn [users nextId arrays].
  assert (Hother : forall k, k <> "name" ->
            spread user {[ "name" := VString name' ]} !! k = user !! k).
  { intros k Hk. apply lookup_spread_None. by apply lookup_singleton_ne. }
  split; [unfold name; by rewrite get_spread, lookup_singleton_eq|].
  split; [unfold id, get; by rewrite Hother|].
  split; [unfold email, get; by rewrite Hother|].
  split; [unfold createdAt, get; by rewrite Hother|].
  split; [done|].
  split; [|split; [|split; [|done]]].
  - unfold findById. cbn [users]. by rewrite Map_get_set_eq.
  - apply Map_keys_set_present. by eapply Map_get_Some_key.
  - apply (Map_set_fmap_values_same email id' _ user); [done|].
    unfold email, get. by rewrite Hother.
Qed.

Lemma X7_updateUserName_changes_only_name_witness :
  Map_get "1" (users two_users) = Some alice_user
  /\ exists (updated : User) (s' : State),
       updateUserName InMemoryUserRepository "1" "Alice Smith" two_users
       = (Normal updated, s')
       /\ name updated = VString "Alice Smith"
       /\ email <$> Map_values (users s')
          = [VString "alice@example.com"; VString "bob@example.com"].
Proof.
  split; [reflexivity|].
  destruct (proj2 (X7_updateUserName_changes_only_name two_users "1" "Alice Smith")
              alice_user eq_refl)
    as (updated & s' & Hupd & Hname & _ & _ & _ & _ & _ & _ & Hemails & _).
  exists updated, s'. split; [exact Hupd|]. split; [exact Hname | exact Hemails].
Defined.

Lemma filter_other_ids (k : string) (m : JsMap User) :
  Forall (fun entry : string * User => id entry.2 = VString entry.1) m ->
  k ∉ Map_keys m ->
  filter (fun u => id u <> VString k) (Map_values m) = Map_values m.
Proof.
  unfold Map_keys, Map_values. intros Hids.
  induction Hids as [|[k' u] m Hku Hids IH]; [done|].
  rewrite !fmap_cons. cbn [fst snd] in *. intros Hk.
  apply not_elem_of_cons in Hk as [Hne Hk].
  rewrite filter_cons_True by congruence. f_equal. by apply IH.
Qed.

Lemma Map_delete_values_filter (k : string) (m : JsMap User) :
  Map_wf m ->
  Forall (fun entry : string * User => id entry.2 = VString entry.1) m ->
  Map_values (Map_delete k m)
  = filter (fun u => id u <> VString k) (Map_values m).
Proof.
  intros Hwf Hids.
  induction Hids as [|[k' u] m Hku Hids IH]; [done|].
  unfold Map_wf, Map_keys in Hwf. rewrite fmap_cons in Hwf.
  apply NoDup_cons in Hwf as [Hk' Hwf]. cbn [fst snd] in *.
  cbn [Map_delete]. unfold Map_values at 2. rewrite fmap_cons. cbn [snd].
  fold (Map_values m).
  destruct (String.eqb_spec k' k) as [->|Hne].
  - rewrite filter_cons_False by (intros H; by apply H).
    symmetry. by apply filter_other_ids.
  - rewrite filter_cons_True by congruence.
    unfold Map_values at 1. rewrite fmap_cons. cbn [snd].
    fold (Map_values (Map_delete k m)). f_equal. by apply IH.
Qed.

(** X8: [removeUser] on a stored identifier removes the user of that
    identifier and no other: in a store with one entry per identifier and
    every user filed under its own, the users [findAll] lists afterwards
    are the former ones without it, in the same order. *)
Theorem X8_removeUser_drops_exactly_that_user (s : State) (id' : string) :
  Map_wf (users s) ->
  ids_are_keys s ->
  id' ∈ Map_keys (users s) ->
  exists (s1 s2 : State) (a : nat),
    removeUser InMemoryUserRepository id' s = (Normal (), s1)
    /\ findAll s1 = (Normal a, s2)
    /\ read_array s2 a
       = Some (filter (fun u => id u <> VString id') (Map_values (users s))).
Proof.
  intros Hwf Hids Hin. unfold removeUser.
  cbn [repo_delete InMemoryUserRepository]. rewrite delete_present by done.
  eexists _, _, _. split; [reflexivity|]. split; [reflexivity|].
  unfold read_array. cbn [arrays users snd].
  rewrite lookup_app_r, Nat.sub_diag by done. cbn [lookup list_lookup].
  f_equal. by apply Map_delete_values_filter.
Qed.

Lemma two_users_ids_are_keys : ids_are_keys two_users.
Proof. unfold ids_are_keys. by repeat constructor. Qed.

Lemma X8_removeUser_drops_exactly_that_user_witness :
  Map_wf (users two_users)
  /\ ids_are_keys two_users
  /\ ("2" ∈ Map_keys (users two_users))
  /\ exists (s1 s2 : State) (a : nat),
       removeUser InMemoryUserRepository "2" two_users = (Normal (), s1)
       /\ findAll s1 = (Normal a, s2)
       /\ read_array s2 a = Some [alice_user].
Proof.
  assert (Hin : "2" ∈ Map_keys (users two_users)).
  { apply Map_has_true. reflexivity. }
  split; [exact two_users_wf|]. split; [exact two_users_ids_are_keys|].
  split; [exact Hin|].
  exact (X8_removeUser_drops_exactly_that_user two_users "2"
           two_users_wf two_users_ids_are_keys Hin).
Defined.





Lemma Map_set_same {V} (k : string) (v : V) (m : JsMap V) :
  Map_get k m = Some v -> Map_set k v m = m.
Proof.
  induction m as [|[k' v'] m IH]; simpl; [done|].
  destruct (String.eqb k' k); [by intros [= ->] | intros H; f_equal; auto].
Qed.

(** X12: [update] with a patch that carries no field returns the stored
    user and leaves the state as it was, and applying a patch a second
    time changes nothing: it returns the same user and the same state as
    the first time. *)
Theorem X12_update_empty_patch_and_repeat
    (s : State) (id' : string) (user : User) :
  Map_get id' (users s) = Some user ->
  update id' ∅ s = (Normal user, s)
  /\ (forall data,
       exists (updated : User) (s' : State),
         update id' data s = (Normal updated, s')
         /\ update id' data s' = (Normal updated, s')).
Proof.
  intros Hget. split.
  - rewrite (update_present _ _ _ _ Hget).
    rewrite spread_empty, Map_set_same by done. by destruct s.
  - intros data. rewrite (update_present _ _ _ _ Hget).
    eexists _, _. split; [reflexivity|].
    erewrite update_present by (cbn [users]; apply Map_get_set_eq).
    cbn [users nextId arrays]. rewrite spread_idempotent.
    by rewrite Map_set_same by apply Map_get_set_eq.
Qed.

Lemma X12_update_empty_patch_and_repeat_witness :
  Map_get "1" (users two_users) = Some alice_user
  /\ update "1" ∅ two_users = (Normal alice_user, two_users).
Proof.
  split; [reflexivity|].
  exact (proj1 (X12_update_empty_patch_and_repeat two_users "1" alice_user
                  eq_refl)).
Defined.

(** ** Further properties of the converter *)

Lemma Array_map_total {A B} (f : A -> Completion B) (g : A -> B) (l : list A) :
  (forall x, f x = Normal (g x)) -> Array_map f l = Normal (g <$> l).
Proof.
  intros Hf. induction l as [|x l IH]; [done|].
  cbn [Array_map]. by rewrite Hf, IH.
Qed.

(** X10: mapping a list of rows through [toEntity] and [toDto] never fails,
    not even on rows whose timestamp does not parse, and returns one
    response per row, in the order of the rows: the response at an index
    carries the identifier, name and email of the row at that index and
    the formatted date of its timestamp. *)
Theorem X10_map_rows_keeps_length_and_order
    (Date_parse : string -> option Z) (toLocaleDateString : Date -> string)
    (rows : list Mapper.UserRow.t) :
  exists dtos : list Mapper.UserResponseDto.t,
    Mapper.map_rows Date_parse toLocaleDateString rows = Normal dtos
    /\ length dtos = length rows
    /\ (forall (i : nat) (row : Mapper.UserRow.t),
         rows !! i = Some row ->
         exists dto,
           dtos !! i = Some dto
           /\ Mapper.UserResponseDto.id dto = Mapper.UserRow.user_id row
           /\ Mapper.UserResponseDto.name dto = Mapper.UserRow.user_name row
           /\ Mapper.UserResponseDto.email dto = Mapper.UserRow.user_email row
           /\ Mapper.UserResponseDto.memberSince dto
              = toLocaleDateString
                  (Date_of_string Date_parse (Mapper.UserRow.created_at row))).
Proof.
  eexists. split.
  - unfold Mapper.map_rows. apply Array_map_total. intros row. reflexivity.
  - split; [by rewrite length_fmap|].
    intros i row Hrow. eexists. rewrite list_lookup_fmap, Hrow.
    split; [reflexivity|]. by repeat split.
Qed.

Lemma X10_map_rows_keeps_length_and_order_witness :
  [Mapper.dbRow; Mapper.garbage_row] !! 1%nat = Some Mapper.garbage_row
  /\ exists dtos : list Mapper.UserResponseDto.t,
       Mapper.map_rows Mapper.Date_parse_utc
         (fun d => match d with
                   | TimeValue _ => "a date"
                   | InvalidDate => "Invalid Date"
                   end)
         [Mapper.dbRow; Mapper.garbage_row] = Normal dtos
       /\ exists dto,
            dtos !! 1%nat = Some dto
            /\ Mapper.UserResponseDto.id dto = "usr_42"
            /\ Mapper.UserResponseDto.memberSince dto = "Invalid Date".
Proof.
  split; [reflexivity|].
  destruct (X10_map_rows_keeps_length_and_order Mapper.Date_parse_utc
              (fun d => match d with
                        | TimeValue _ => "a date"
                        | InvalidDate => "Invalid Date"
                        end)
              [Mapper.dbRow; Mapper.garbage_row])
    as (dtos & Hmap & _ & Hrows).
  exists dtos. split; [exact Hmap|].
  destruct (Hrows 1%nat Mapper.garbage_row eq_refl)
    as (dto & Hdto & Hid & _ & _ & Hsince).
  exists dto. split; [exact Hdto|]. split; [exact Hid | exact Hsince].
Defined.

(** *** Display names *)

Import Ascii.AsciiSyntax.
Delimit Scope char_scope with char.

Lemma append_nil_l (s : string) : "" +:+ s = s.
Proof. reflexivity. Qed.

Lemma append_cons_l (c : Ascii.ascii) (s t : string) :
  String c s +:+ t = String c (s +:+ t).
Proof. reflexivity. Qed.

Lemma append_closing_inj (s1 s2 : string) :
  s1 +:+ ">" = s2 +:+ ">" -> s1 = s2.
Proof.
  revert s2. induction s1 as [|c s1 IH]; intros [|c2 s2];
    rewrite ?append_cons_l, ?append_nil_l; try done.
  - intros [= _ H]. destruct s2; by rewrite ?append_cons_l, ?append_nil_l in H.
  - intros [= _ H]. destruct s1; by rewrite ?append_cons_l, ?append_nil_l in H.
  - intros [= -> H]. f_equal. by apply IH.
Qed.

Lemma append_opening_inj (n1 n2 r1 r2 : string) :
  includes_char "<"%char n1 = false ->
  includes_char "<"%char n2 = false ->
  n1 +:+ " <" +:+ r1 = n2 +:+ " <" +:+ r2 ->
  n1 = n2 /\ r1 = r2.
Proof.
  revert n2. induction n1 as [|c n1 IH]; intros [|c2 n2] H1 H2;
    rewrite ?append_cons_l, ?append_nil_l.
  - by intros [= ->].
  - intros [= <- H]. destruct n2 as [|c3 n3];
      rewrite ?append_cons_l, ?append_nil_l in H; [done|].
    injection H as <- _. simpl in H2. done.
  - intros [= -> H]. destruct n1 as [|c3 n3];
      rewrite ?append_cons_l, ?append_nil_l in H; [done|].
    injection H as -> _. simpl in H1. done.
  - intros [= -> H]. simpl in H1, H2.
    apply orb_false_iff in H1 as [_ H1]. apply orb_false_iff in H2 as [_ H2].
    destruct (IH n2 H1 H2 H) as [-> ->]. done.
Qed.

(** X11: the display name of an entity is its name, a space, and its email
    in angle brackets.  For entities whose names contain no "<" the
    display name determines name and email; without that condition it
    does not: the name "a <b" with email "c" and the name "a" with email
    "b <c" are displayed alike. *)
Theorem X11_getDisplayName_unambiguous (e1 e2 : Mapper.UserEntity.t) :
  (includes_char "<"%char (Mapper.UserEntity.name e1) = false ->
   includes_char "<"%char (Mapper.UserEntity.name e2) = false ->
   Mapper.UserEntity.getDisplayName e1 = Mapper.UserEntity.getDisplayName e2 ->
   Mapper.UserEntity.name e1 = Mapper.UserEntity.name e2
   /\ Mapper.UserEntity.email e1 = Mapper.UserEntity.email e2)
  /\ Mapper.UserEntity.getDisplayName
       {| Mapper.UserEntity.id := Mapper.UserEntity.id e1;
          Mapper.UserEntity.name := "a <b";
          Mapper.UserEntity.email := "c";
          Mapper.UserEntity.createdAt := Mapper.UserEntity.createdAt e1 |}
     = Mapper.UserEntity.getDisplayName
         {| Mapper.UserEntity.id := Mapper.UserEntity.id e1;
            Mapper.UserEntity.name := "a";
            Mapper.UserEntity.email := "b <c";
            Mapper.UserEntity.createdAt := Mapper.UserEntity.createdAt e1 |}.
Proof.
  split; [|reflexivity].
  unfold Mapper.UserEntity.getDisplayName. intros H1 H2 H.
  apply append_opening_inj in H as [Hn He]; [|done..].
  split; [done|]. by apply append_closing_inj.
Qed.

Lemma X11_getDisplayName_unambiguous_witness :
  includes_char "<"%char "Alice Johnson" = false
  /\ Mapper.UserEntity.getDisplayName
       {| Mapper.UserEntity.id := "usr_42";
          Mapper.UserEntity.name := "Alice Johnson";
          Mapper.UserEntity.email := "alice@example.com";
          Mapper.UserEntity.createdAt := InvalidDate |}
     = "Alice Johnson <alice@example.com>"
  /\ "alice@example.com" = "alice" +:+ "@example.com".
Proof.
  split; [reflexivity|]. split; [reflexivity|].
  exact (proj2 (proj1 (X11_getDisplayName_unambiguous
           {| Mapper.UserEntity.id := "usr_42";
              Mapper.UserEntity.name := "Alice Johnson";
              Mapper.UserEntity.email := "alice@example.com";
              Mapper.UserEntity.createdAt := InvalidDate |}
           {| Mapper.UserEntity.id := "usr_43";
              Mapper.UserEntity.name := "Alice Johnson";
              Mapper.UserEntity.email := "alice" +:+ "@example.com";
              Mapper.UserEntity.createdAt := TimeValue 0 |})
           eq_refl eq_refl eq_refl)).
Defined.
